(* ===== verification/_CoqProject ===== *)
-Q . S2P
Prelude.v
Cypher.v
Graph.v
Exec.v
Queries.v
Driver.v
Connection.v
Usage.v
