(* ===== verification/Prelude.v ===== *)
(** * A verification development for [neo4j_dev.py]

    The program is src/docs/sections/neo4j/code/neo4j_dev.py of
    Salute_Neo4j: a class [Neo4jConnection] wrapping the neo4j Python
    driver, and a script that uses it in a [with] statement.  Its parts and
    how they interact:

    - the class (lines 7-50): [__init__] opens a driver, [__enter__] a
      session, [__exit__] closes the session and then the driver;
      [run_query] hands a text and a parameter dict to [session.run];
      [show_databases] runs [SHOW DATABASES] in an explicit transaction;
      [create_node], [create_relationship] and [delete_node] format Cypher
      text with f-strings (labels, the relationship type and property keys
      interpolated; property values passed as parameters) and call
      [run_query];
    - the script (lines 3-6, 53-63): connection constants and a [with]
      block creating Alice and Bob, linking them, and deleting Alice;
    - what the code calls and the repository does not contain: the driver
      (driver, session and transaction objects), and the server behind it
      (its parser of Cypher text and its graph store).  These are modelled
      from spec §3, §4.1 and §6 and marked as such in the manifest.

    ** Files, modules and the code they model

    - [Prelude] (this file): outcomes [result] (a value or an exception),
      the state-and-exception monad [stM] (the state is returned on both
      paths, as Python keeps its side effects when it raises),
      [st_finally] for [try]/[finally] and [with], association lists
      ([assoc], Python dicts in insertion order), string lemmas, the hint
      databases [neo] and [neo_simpl], and the tactics [st_unfold] and
      [by_decide].
    - [Cypher] (module [Cypher], server side, from the spec): the lexer
      [lex] as a character state machine (one [lex_step] per character over
      [lex_mode]: words, parameters, integers, quoted strings with their
      escapes) and a recursive-descent parser [parse] for the fragment the
      wrapper and the spec use ([MATCH] node and path patterns with
      [{k: e}] fields, [WHERE] with [AND], [CREATE], [DETACH DELETE],
      [RETURN], [SHOW DATABASES]; [e] a parameter or a literal, integer
      literals within 64 bits; keywords in any case).  The
      clause loop [p_clauses] runs on fuel; [parse_tokens] gives it the
      number of tokens, one round per clause, and every clause consumes at
      least its keyword.
    - [Graph] (module [Graph]): the store, nodes and relationships in
      [gmap]s under ids drawn from one counter, the uniqueness constraints
      of the schema ([g_unique]), [add_node], [add_rel], [detach_delete],
      the server's check on a new node ([new_clash]), and the invariant
      [graph_wf] (ids fresh, no dangling relationship, constraints
      satisfied), decidable.
    - [Exec] (module [Exec]): the server's row-based evaluation of a parsed
      query, [exec_query] and [run_cypher] (parameters checked first,
      [null] never equal in [WHERE], one [CREATE] per row), and the
      abstract specifications the wrapper's updates are proved against:
      [delete_matching] and [link_pairs].
    - [Queries] (module [Queries], lines 30, 34-38, 47, 49): the query texts
      character for character ([create_node_query],
      [create_relationship_query], [delete_condition], [join],
      [delete_conditions], [delete_node_query]) and the queries they are
      meant to be.
    - [Driver] (module [Driver], from the spec): a [world] of the server,
      a heap of driver, session and transaction objects with open flags,
      a fresh-id counter and a log of the calls that reach the server or
      release an object; [graphdb_driver], [driver_session], [session_run],
      [session_begin_transaction], [tx_run], [tx_commit], [tx_rollback],
      [with_tx], [session_close], [driver_close].  The driver is lazy:
      creating it does not contact the server, the first [run] does; a
      session with a result still pending needs the server to close.
      [run] returns a result object ([result_obj] in [w_results]) owned by
      its session or transaction, holding the records the server computed;
      [iterate_result] ([list(result)]) reads it once ([RLive] to
      [RExhausted]); closing the session, or committing or rolling back the
      transaction, discards its live results ([discard_results], state
      [RConsumed]), and reading one then raises [ResultConsumedError].
      Before a query is sent its parameters are packed ([packable]): an
      integer outside the signed 64-bit range of PackStream raises
      [OverflowError] on the client, as the Python driver's packer does.
    - [Connection] (module [Connection], lines 7-50 and the [with] of line
      54): the record [Neo4jConnection] ([_driver], [_session]) and one
      definition per method with the source's name, in the monad over the
      world ([create_node_params] and [create_relationship_params] are the
      dict literals of lines 31 and 39); [session_attr] is the attribute lookup on [self._session]
      ([AttributeError] on [None]); [with_connection] is the [with]
      statement.  Bodies of a [with] block are lists of [call]s run by
      [do_calls]; [spec_call] and [spec_calls] are their contract on the
      store alone.
    - [Usage] (module [Usage], lines 3-6, 53-63): [uri], [user],
      [password], the body [main_body] and [main]; [main_calls] is the same
      body as a list of [call]s, so the refinement applies to the script.

    ** What the theorems show (claim ids of the manifest)

    - Resources: leaving the [with] block, after any body that keeps the
      network, closes the session and then the driver exactly once, after
      the body's last call (C1); a connection that escapes the block can no
      longer run queries (C10); before [__enter__] it has no session (C19);
      an unsupported URI raises before anything is created (C20); a second
      [__exit__] is a no-op (C21).  When [session.close()] raises,
      [__exit__] skips [driver.close()] and the driver stays open (C5).
    - Refinement: a whole [with] block of helper calls with identifier
      names raises what the abstract contract [spec_calls] raises and
      leaves the store as [spec_calls] computes it (C2).
    - The helpers, on a connection inside its block: [create_node] adds one
      node with the dict's values verbatim (C8); [delete_node] refines the
      abstract detach-delete: exactly the matching nodes go, exactly the
      relationships with a deleted end go (C4); the two round-trip (C3),
      except when a value is [None]: the created node then survives its
      deletion (C13); [create_relationship] creates one edge per matching
      pair, [|A| * |B|] of them (C6), and nothing, silently, when either
      side matches no node (C7); [delete_node] with an empty dict is a
      syntax error, not a delete-all (C11); [show_databases] returns the
      database names and commits its transaction (C15), and every
      transaction it begins is ended before it returns (liveness, C22).
    - The script: against any reachable server without constraints, [main]
      returns normally, leaves no [Person] named Alice, stores Bob under
      the id after Alice's and keeps every other node (C9).
    - An unreachable server or wrong credentials: the driver is lazy, so
      [__init__] and [__enter__] succeed and the first call that reaches
      the server raises [ServiceUnavailable] or [AuthError]; the block
      still releases the session and then the driver, and the store is
      untouched (C14).
    - Results: the result [run_query] returns yields the server's records
      once, then nothing (C25); after a [with] block no result of its
      session can still be read (C23), so a result [run_query] returned
      inside the block and read after it raises [ResultConsumedError],
      its records lost while its write stays (C24); [show_databases]
      escapes this by building its list inside the transaction.
    - Integers: Python's [int] is unbounded, the driver's is 64 bits; a
      dict with an integer outside [-2^63, 2^63 - 1] makes [create_node]
      raise [OverflowError] before anything reaches the server, with the
      world unchanged (C26), and that range is exactly the boundary: no
      other dict makes it raise [OverflowError] (C27).  The helpers'
      theorems assume their integers fit (C3-C8, C25), and the contract
      [spec_call] raises [OverflowError] first (C2).
    - Exceptions: an exception of [__exit__] replaces the body's, so the
      caller's own error is lost when [session.close()] fails (C28); a
      node that breaks a uniqueness constraint raises the server's
      [ConstraintValidationFailed] through [create_node] unchanged (C30).
    - Query texts: each builder's text parses to the intended query when
      the interpolated names are identifiers (C16-C18); a label carrying
      query syntax changes the query: [L1:L2] gives a node two labels
      (C12), and [L) CREATE (b:M] plants a second node that carries the
      dict while the requested one is stored empty (C29).

    Each theorem with hypotheses is followed by a witness ([_witness])
    applying it to concrete worlds: [fixture_world] in [Connection], a
    server holding one node, and the connection entered against it.

    ** Not modelled

    The Bolt protocol, TLS, routing and connection pools of the driver;
    incremental fetching of records (a result's records are computed at
    [run] and buffered in its object; [ses_pending], which makes closing a
    session contact the server, is set by [run] and not cleared by reading
    the result) and the [Result] methods other than iteration; timeouts and
    transient errors; Cypher beyond the fragment above (unicode escapes,
    backquoted names, comments, [OR], [MERGE], arithmetic, ...) and the
    server's storage, other constraint kinds, indexes, concurrency and
    isolation;
    floating-point values and non-ASCII text (property values are [null],
    booleans, integers and strings).  Every line of [neo4j_dev.py] that is
    code is modelled; what is left is the driver and the server it calls,
    modelled as far as spec §3-§7 describe them. *)

From stdpp Require Export base list strings gmap.
From Stdlib Require Export Ascii ZArith.

Declare Scope neo_scope.
Delimit Scope neo_scope with neo.
Open Scope stdpp_scope.

(** ** Outcomes: a value or a raised exception *)

(** A Python call either returns a value or raises an exception; [result E A]
    is that sum, with the exception type [E] left open. *)
Inductive result (E A : Type) : Type :=
  | Ok (a : A)
  | Err (e : E).
Arguments Ok {E A} a.
Arguments Err {E A} e.

#[export] Instance result_ret E : MRet (result E) := fun _ a => Ok a.
#[export] Instance result_bind E : MBind (result E) :=
  fun _ _ f r => match r with Ok a => f a | Err e => Err e end.

Definition of_option {E A} (e : E) (o : option A) : result E A :=
  match o with Some a => Ok a | None => Err e end.

(** ** The state-and-exception monad of the Python program

    [stM S E A] threads a store [S] and may raise an [E]; the store is
    returned on both paths, because side effects performed before a raise are
    not undone in Python. *)
Definition stM (S E A : Type) : Type := S -> result E A * S.

#[export] Instance stM_ret S E : MRet (stM S E) := fun _ a s => (Ok a, s).
#[export] Instance stM_bind S E : MBind (stM S E) :=
  fun _ _ f c s => match c s with
                   | (Ok a, s') => f a s'
                   | (Err e, s') => (Err e, s')
                   end.

Definition st_raise {S E A} (e : E) : stM S E A := fun s => (Err e, s).
Definition st_get {S E} : stM S E S := fun s => (Ok s, s).
Definition st_put {S E} (s' : S) : stM S E unit := fun _ => (Ok tt, s').
Definition st_lift {S E A} (r : result E A) : stM S E A := fun s => (r, s).

(** [try c finally f]: run [c], then [f] on every path.  An exception of [f]
    replaces the outcome of [c], as in Python. *)
Definition st_finally {S E A} (c : stM S E A) (f : stM S E unit) : stM S E A :=
  fun s => match c s with
           | (r, s1) => match f s1 with
                        | (Ok _, s2) => (r, s2)
                        | (Err e, s2) => (Err e, s2)
                        end
           end.

(** ** Association lists: Python dicts and Cypher rows

    A Python [dict] keeps insertion order, and a lookup finds the one entry
    for a key; [assoc] returns the first entry. *)
Fixpoint assoc {A} (k : string) (l : list (string * A)) : option A :=
  match l with
  | [] => None
  | (k', a) :: l' => if decide (k = k') then Some a else assoc k l'
  end.

(** [mapM] in the exception monad: the first failure wins. *)
Fixpoint mapM_res {E A B} (f : A -> result E B) (l : list A) : result E (list B) :=
  match l with
  | [] => Ok []
  | a :: l' => b ← f a; bs ← mapM_res f l'; Ok (b :: bs)
  end.

(** ** Rewriting database and tactics *)

Create HintDb neo discriminated.
Create Rewrite HintDb neo_simpl.

Lemma stM_bind_run {S E A B} (c : stM S E A) (f : A -> stM S E B) s :
  (c ≫= f) s = match c s with
               | (Ok a, s') => f a s'
               | (Err e, s') => (Err e, s')
               end.
Proof. reflexivity. Qed.

Lemma stM_ret_run {S E A} (a : A) (s : S) : (mret a : stM S E A) s = (Ok a, s).
Proof. reflexivity. Qed.

Lemma result_bind_ok {E A B} (a : A) (f : A -> result E B) : (Ok a ≫= f) = f a.
Proof. reflexivity. Qed.

Lemma result_bind_err {E A B} (e : E) (f : A -> result E B) : (Err e ≫= f) = Err e.
Proof. reflexivity. Qed.

Lemma string_app_cons (c : ascii) (s1 s2 : string) :
  String c s1 +:+ s2 = String c (s1 +:+ s2).
Proof. reflexivity. Qed.

Lemma string_app_nil (s : string) : "" +:+ s = s.
Proof. reflexivity. Qed.

Lemma string_app_assoc (s1 s2 s3 : string) :
  (s1 +:+ s2) +:+ s3 = s1 +:+ (s2 +:+ s3).
Proof. induction s1 as [|c s1 IH]; [done|]. by rewrite !string_app_cons, IH. Qed.

Lemma string_app_nil_r (s : string) : s +:+ "" = s.
Proof. induction s as [|c s IH]; [done|]. by rewrite string_app_cons, IH. Qed.

Lemma list_omap_cons {A B} (f : A -> option B) x l :
  omap f (x :: l) = match f x with Some y => y :: omap f l | None => omap f l end.
Proof. reflexivity. Qed.

Lemma assoc_In {A} k (a : A) l :
  (k, a) ∈ l -> NoDup (map fst l) -> assoc k l = Some a.
Proof.
  induction l as [|[k' a'] l IH]; simpl; [by intros ?%elem_of_nil|].
  intros Hin [Hk Hnd]%NoDup_cons. apply elem_of_cons in Hin as [Heq|Hin].
  - simplify_eq. by rewrite decide_True.
  - case_decide; subst; [|by apply IH].
    exfalso. apply Hk. apply list_elem_of_In, in_map_iff. exists (k', a).
    split; [done|]. by apply list_elem_of_In.
Qed.

#[export] Hint Rewrite @stM_bind_run @stM_ret_run @result_bind_ok @result_bind_err
  string_app_cons string_app_nil : neo_simpl.

(** [st_unfold] exposes the state passing of a monadic program. *)
Ltac st_unfold :=
  unfold mbind, mret, stM_bind, stM_ret, st_raise, st_get, st_put, st_lift, st_finally in *;
  cbn beta iota in *.

(** [neo_simp] unfolds the monads and string concatenation, then simplifies. *)
(** A decidable hypothesis about concrete data, settled by evaluating its
    decision procedure. *)
Ltac by_decide := apply (bool_decide_unpack _); vm_compute; exact I.

Ltac neo_simp := repeat (progress (autorewrite with neo_simpl; simpl)).
