(* ===== verification/Cypher.v ===== *)
(** * The query-language fragment the wrapper emits

    The wrapper of [neo4j_dev.py] builds Cypher text and hands it to the
    driver; the server lexes and parses it.  This file models that part of
    the server (spec §6, "Query language boundary"): a lexer for the tokens
    the fragment uses and a parser for the clauses the four helpers and the
    spec's scenarios produce ([MATCH], [WHERE ... AND ...], [CREATE],
    [DETACH DELETE], [RETURN], [SHOW DATABASES]), with node patterns
    [(v:L1:L2 $p)], [(v:L {k: e, ...})] and single-hop paths
    [(a)-[:T]->(b)], where [e] is a parameter or a literal (a quoted string
    with backslash escapes, a 64-bit integer, [true], [false], [null]);
    keywords are case-insensitive.  The lexer is a state machine stepping
    one character at a time ([lex_step]).  Lexing and parsing are total
    functions to [option]; a [None] is the server's syntax error. *)

From S2P Require Import Prelude.

Module Cypher.

(** ** Characters *)

Definition is_letter (c : ascii) : bool :=
  let n := N_of_ascii c in
  ((65 <=? n)%N && (n <=? 90)%N) || ((97 <=? n)%N && (n <=? 122)%N).
Definition is_digit (c : ascii) : bool :=
  let n := N_of_ascii c in (48 <=? n)%N && (n <=? 57)%N.
Definition ident_start (c : ascii) : bool := is_letter c || Ascii.eqb c "_".
Definition ident_char (c : ascii) : bool := ident_start c || is_digit c.
Definition is_blank (c : ascii) : bool :=
  Ascii.eqb c " " || Ascii.eqb c "010" || Ascii.eqb c "009" || Ascii.eqb c "013".

(** ** Tokens and the lexer *)

Inductive token : Type :=
  | TId (s : string)
  | TParam (s : string)
  | TStr (s : string)
  | TInt (z : Z)
  | TLParen | TRParen | TLBrace | TRBrace | TLBrack | TRBrack
  | TColon | TComma | TDot | TEq | TDash | TGt.

Definition punct (c : ascii) : option token :=
  match c with
  | "(" => Some TLParen | ")" => Some TRParen
  | "{" => Some TLBrace | "}" => Some TRBrace
  | "[" => Some TLBrack | "]" => Some TRBrack
  | ":" => Some TColon | "," => Some TComma | "." => Some TDot
  | "=" => Some TEq | "-" => Some TDash | ">" => Some TGt
  | _ => None
  end%char.

(** A string literal opens with a double quote (code 34) or a single one. *)
Definition is_quote (c : ascii) : bool := Ascii.eqb c "034" || Ascii.eqb c "'".

Definition digit_value (c : ascii) : Z := (Z.of_N (N_of_ascii c) - 48)%Z.

(** The escapes of a string literal: a backslash before [t], [b], [n],
    [r] or [f] (tab, backspace, newline, carriage return, form feed), or
    before either quote or a backslash (that character). *)
Definition unescape (c : ascii) : option ascii :=
  match c with
  | "t" => Some "009" | "b" => Some "008" | "n" => Some "010"
  | "r" => Some "013" | "f" => Some "012"
  | "'" => Some "'" | "034" => Some "034" | "092" => Some "092"
  | _ => None
  end%char.

(** The lexer is between tokens ([LStart]), inside a word (a parameter
    name when it began with [$]), inside a decimal integer, inside a string
    literal opened by the quote [q], or right after a backslash in one. *)
Inductive lex_mode : Type :=
  | LStart
  | LWord (param : bool) (buf : string)
  | LNum (n : Z)
  | LQuote (q : ascii) (buf : string)
  | LEscape (q : ascii) (buf : string).

(** The token a mode holds when its text ends; an open string is an
    error. *)
Definition flush (m : lex_mode) : option (list token) :=
  match m with
  | LStart => Some []
  | LWord false w => Some [TId w]
  | LWord true EmptyString => None
  | LWord true w => Some [TParam w]
  | LNum n => Some [TInt n]
  | LQuote _ _ | LEscape _ _ => None
  end.

Definition lex_start (c : ascii) : option (list token * lex_mode) :=
  if is_blank c then Some ([], LStart)
  else if ident_start c then Some ([], LWord false (String c EmptyString))
  else if is_digit c then Some ([], LNum (digit_value c))
  else if Ascii.eqb c "$" then Some ([], LWord true EmptyString)
  else if is_quote c then Some ([], LQuote c EmptyString)
  else match punct c with
       | Some t => Some ([t], LStart)
       | None => None
       end.

(** A character that ends the current token starts the next one. *)
Definition after_token (m : lex_mode) (c : ascii) : option (list token * lex_mode) :=
  ts ← flush m; '(ts', m') ← lex_start c; Some (ts ++ ts', m').

(** One character of the lexer's state machine: the tokens it completes
    and the next mode.  A letter right after digits is an error. *)
Definition lex_step (m : lex_mode) (c : ascii) : option (list token * lex_mode) :=
  match m with
  | LStart => lex_start c
  | LWord p w =>
      if ident_char c then Some ([], LWord p (w +:+ String c EmptyString)) else after_token m c
  | LNum n =>
      if is_digit c then Some ([], LNum (10 * n + digit_value c)%Z)
      else if ident_start c then None
      else after_token m c
  | LQuote q b =>
      if Ascii.eqb c "092" then Some ([], LEscape q b)
      else if Ascii.eqb c q then Some ([TStr b], LStart)
      else Some ([], LQuote q (b +:+ String c EmptyString))
  | LEscape q b => c' ← unescape c; Some ([], LQuote q (b +:+ String c' EmptyString))
  end.

Fixpoint lex_from (m : lex_mode) (s : string) : option (list token) :=
  match s with
  | EmptyString => flush m
  | String c s' => '(ts, m') ← lex_step m c; rest ← lex_from m' s'; Some (ts ++ rest)
  end.

Definition lex (s : string) : option (list token) := lex_from LStart s.

(** ** Abstract syntax of the fragment *)

(** Literals and the values a pattern field or a condition compares with:
    a parameter [$p] or a literal. *)
Inductive lit : Type :=
  | LitNull
  | LitBool (b : bool)
  | LitInt (z : Z)
  | LitStr (s : string).

Inductive expr : Type :=
  | EParam (p : string)
  | ELit (l : lit).

(** A property map in a node pattern: absent, a map parameter [$p], or
    literal fields [{k: e, ...}]. *)
Inductive props_pat : Type :=
  | PNone
  | PParam (p : string)
  | PFields (fs : list (string * expr)).

Record node_pat : Type := NodePat {
  np_var : string;
  np_labels : list string;
  np_props : props_pat }.

Inductive pattern : Type :=
  | PNode (n : node_pat)
  | PPath (a : node_pat) (rel_type : string) (b : node_pat).

(** [v.k = e] *)
Record cond : Type := Cond { c_var : string; c_key : string; c_val : expr }.

Inductive ret_item : Type :=
  | RVar (v : string)
  | RProp (v k : string).

Inductive clause : Type :=
  | CMatch (p : pattern) (where_ : list cond)
  | CCreate (p : pattern)
  | CDetachDelete (v : string)
  | CReturn (items : list ret_item)
  | CShowDatabases.

Definition query : Type := list clause.

(** ** The parser *)

(** Keywords are case-insensitive: a word is compared in upper case. *)
Definition ascii_upper (c : ascii) : ascii :=
  let n := N_of_ascii c in
  if ((97 <=? n)%N && (n <=? 122)%N) then ascii_of_N (n - 32) else c.

Fixpoint upper (s : string) : string :=
  match s with
  | EmptyString => EmptyString
  | String c s' => String (ascii_upper c) (upper s')
  end.

Definition is_kw (k : string) (t : token) : bool :=
  match t with TId s => String.eqb (upper s) k | _ => false end.

(** A literal of one token.  An integer literal must fit 64 bits. *)
Definition p_atom (t : token) : option expr :=
  match t with
  | TParam p => Some (EParam p)
  | TStr s => Some (ELit (LitStr s))
  | TInt z => if (z <? 2 ^ 63)%Z then Some (ELit (LitInt z)) else None
  | _ => if is_kw "NULL" t then Some (ELit LitNull)
         else if is_kw "TRUE" t then Some (ELit (LitBool true))
         else if is_kw "FALSE" t then Some (ELit (LitBool false))
         else None
  end.

(** A negated integer literal; [-2^63] is written this way. *)
Definition p_neg (z : Z) : option expr :=
  if (z <=? 2 ^ 63)%Z then Some (ELit (LitInt (- z))) else None.

Fixpoint p_labels (ts : list token) : list string * list token :=
  match ts with
  | TColon :: TId l :: rest => let '(ls, r) := p_labels rest in (l :: ls, r)
  | _ => ([], ts)
  end.

Fixpoint p_fields (ts : list token) : option (list (string * expr) * list token) :=
  match ts with
  | TId k :: TColon :: TDash :: TInt z :: TComma :: rest =>
      e ← p_neg z; '(fs, r) ← p_fields rest; Some ((k, e) :: fs, r)
  | TId k :: TColon :: TDash :: TInt z :: TRBrace :: rest => e ← p_neg z; Some ([(k, e)], rest)
  | TId k :: TColon :: t :: TComma :: rest =>
      e ← p_atom t; '(fs, r) ← p_fields rest; Some ((k, e) :: fs, r)
  | TId k :: TColon :: t :: TRBrace :: rest => e ← p_atom t; Some ([(k, e)], rest)
  | _ => None
  end.

Definition p_props (ts : list token) : option (props_pat * list token) :=
  match ts with
  | TParam p :: rest => Some (PParam p, rest)
  | TLBrace :: rest => '(fs, r) ← p_fields rest; Some (PFields fs, r)
  | _ => Some (PNone, ts)
  end.

Definition p_node (ts : list token) : option (node_pat * list token) :=
  match ts with
  | TLParen :: TId v :: rest =>
      let '(ls, r1) := p_labels rest in
      '(pp, r2) ← p_props r1;
      match r2 with
      | TRParen :: r3 => Some (NodePat v ls pp, r3)
      | _ => None
      end
  | _ => None
  end.

Definition p_pattern (ts : list token) : option (pattern * list token) :=
  '(a, r1) ← p_node ts;
  match r1 with
  | TDash :: TLBrack :: TColon :: TId t :: TRBrack :: TDash :: TGt :: r2 =>
      '(b, r3) ← p_node r2; Some (PPath a t b, r3)
  | _ => Some (PNode a, r1)
  end.

Fixpoint p_conds (ts : list token) : option (list cond * list token) :=
  match ts with
  | TId v :: TDot :: TId k :: TEq :: TDash :: TInt z :: rest =>
      e ← p_neg z;
      match rest with
      | t :: rest' =>
          if is_kw "AND" t then '(cs, r) ← p_conds rest'; Some (Cond v k e :: cs, r)
          else Some ([Cond v k e], rest)
      | [] => Some ([Cond v k e], rest)
      end
  | TId v :: TDot :: TId k :: TEq :: t0 :: rest =>
      e ← p_atom t0;
      match rest with
      | t :: rest' =>
          if is_kw "AND" t then '(cs, r) ← p_conds rest'; Some (Cond v k e :: cs, r)
          else Some ([Cond v k e], rest)
      | [] => Some ([Cond v k e], rest)
      end
  | _ => None
  end.

Fixpoint p_items (ts : list token) : option (list ret_item * list token) :=
  match ts with
  | TId v :: TDot :: TId k :: TComma :: rest =>
      '(its, r) ← p_items rest; Some (RProp v k :: its, r)
  | TId v :: TDot :: TId k :: rest => Some ([RProp v k], rest)
  | TId v :: TComma :: rest => '(its, r) ← p_items rest; Some (RVar v :: its, r)
  | TId v :: rest => Some ([RVar v], rest)
  | _ => None
  end.

Definition p_where (p : pattern) (ts : list token) : option (clause * list token) :=
  match ts with
  | t :: r => if is_kw "WHERE" t then '(cs, r') ← p_conds r; Some (CMatch p cs, r')
              else Some (CMatch p [], ts)
  | [] => Some (CMatch p [], ts)
  end.

Definition p_clause (ts : list token) : option (clause * list token) :=
  match ts with
  | t0 :: rest =>
      if is_kw "MATCH" t0 then '(p, r) ← p_pattern rest; p_where p r
      else if is_kw "CREATE" t0 then '(p, r) ← p_pattern rest; Some (CCreate p, r)
      else if is_kw "DETACH" t0 then
        match rest with
        | t :: TId v :: r => if is_kw "DELETE" t then Some (CDetachDelete v, r) else None
        | _ => None
        end
      else if is_kw "RETURN" t0 then '(its, r) ← p_items rest; Some (CReturn its, r)
      else if is_kw "SHOW" t0 then
        match rest with
        | t :: r => if is_kw "DATABASES" t then Some (CShowDatabases, r) else None
        | [] => None
        end
      else None
  | _ => None
  end.

(** The clause loop runs on fuel; [parse_tokens] gives it the number of
    tokens, one round per clause, and every clause consumes at least its
    keyword. *)
Fixpoint p_clauses (fuel : nat) (ts : list token) : option query :=
  match ts with
  | [] => Some []
  | _ :: _ =>
      match fuel with
      | O => None
      | S f => '(c, r) ← p_clause ts; cs ← p_clauses f r; Some (c :: cs)
      end
  end.

Definition parse_tokens (ts : list token) : option query := p_clauses (length ts) ts.

Definition parse (s : string) : option query := ts ← lex s; parse_tokens ts.

(** ** Identifiers the fragment accepts

    Spec §4.1: a label must be "letters/digits/underscore"; Cypher also asks
    that it not start with a digit. *)
Fixpoint all_ident_chars (s : string) : bool :=
  match s with
  | EmptyString => true
  | String c s' => ident_char c && all_ident_chars s'
  end.

Definition valid_ident (s : string) : bool :=
  match s with
  | EmptyString => false
  | String c s' => ident_start c && all_ident_chars s'
  end.

(** The lexer run over a prefix: the tokens it emits and the mode it ends
    in (used to lex a text piece by piece). *)
Fixpoint lex_run (m : lex_mode) (s : string) : option (list token * lex_mode) :=
  match s with
  | EmptyString => Some ([], m)
  | String c s' => '(ts, m') ← lex_step m c; '(rest, m'') ← lex_run m' s'; Some (ts ++ rest, m'')
  end.

(** ** Lexer lemmas *)

Lemma ident_start_char c : ident_start c = true -> ident_char c = true.
Proof. unfold ident_char. by intros ->. Qed.

Lemma ident_start_lex c :
  ident_start c = true -> lex_start c = Some ([], LWord false (String c EmptyString)).
Proof.
  unfold lex_start. intros H. rewrite H.
  by destruct c as [[] [] [] [] [] [] [] []]; vm_compute in H |- *.
Qed.

Lemma lex_bind_nil (o : option (list token)) : (rest ← o; Some ([] ++ rest)) = o.
Proof. by destruct o. Qed.

(** A word absorbs identifier characters. *)
Lemma lex_word_app p w L rest :
  all_ident_chars L = true ->
  lex_from (LWord p w) (L +:+ rest) = lex_from (LWord p (w +:+ L)) rest.
Proof.
  revert w. induction L as [|c L IH]; intros w HL; simpl in HL.
  - by rewrite string_app_nil_r.
  - apply andb_prop in HL as [Hc HL].
    rewrite string_app_cons. cbn [lex_from lex_step]. rewrite Hc. cbn [mbind option_bind].
    rewrite lex_bind_nil, IH by done. by rewrite string_app_assoc.
Qed.

(** Lexing a concatenation: run the lexer over the prefix, then continue
    from the mode it ends in. *)
Lemma lex_from_app m p s :
  lex_from m (p +:+ s) = '(ts, m') ← lex_run m p; rest ← lex_from m' s; Some (ts ++ rest).
Proof.
  revert m. induction p as [|c p IH]; intros m.
  - rewrite string_app_nil. cbn [lex_run mbind option_bind]. by rewrite lex_bind_nil.
  - rewrite string_app_cons. cbn [lex_from lex_run].
    destruct (lex_step m c) as [[ts' m']|]; cbn [mbind option_bind]; [|done].
    rewrite IH. destruct (lex_run m' p) as [[rest m'']|]; cbn [mbind option_bind]; [|done].
    destruct (lex_from m'' s); cbn [mbind option_bind]; [|done].
    by rewrite app_assoc.
Qed.

Lemma lex_from_run m s :
  lex_from m s = '(ts, m') ← lex_run m s; rest ← flush m'; Some (ts ++ rest).
Proof. rewrite <- (string_app_nil_r s) at 1. apply lex_from_app. Qed.

(** A character that cannot continue a word ends the token of any mode
    that can end there. *)
Lemma lex_step_sep m c ts :
  ident_char c = false -> flush m = Some ts -> lex_step m c = after_token m c.
Proof.
  intros Hc Hf. pose proof Hc as [Hs Hd]%orb_false_elim.
  destruct m as [|p w|n|q b|q b]; cbn [lex_step]; simpl in Hf; try done.
  - unfold after_token. cbn [flush mbind option_bind].
    by destruct (lex_start c) as [[ts' m']|].
  - by rewrite Hc.
  - by rewrite Hd, Hs.
Qed.

(** Lexing splits at any character that cannot continue a word, once the
    text before it lexes on its own (it does not end inside a string). *)
Lemma lex_from_sep m s1 c s2 :
  ident_char c = false -> is_Some (lex_from m s1) ->
  lex_from m (s1 +:+ String c s2) =
    ts1 ← lex_from m s1; ts2 ← lex_from LStart (String c s2); Some (ts1 ++ ts2).
Proof.
  intros Hc. rewrite lex_from_app, (lex_from_run m s1).
  destruct (lex_run m s1) as [[ts m']|]; cbn [mbind option_bind]; [|by intros [? ?]].
  destruct (flush m') as [f|] eqn:Hf; cbn [mbind option_bind]; [|by intros [? ?]]. intros _.
  cbn [lex_from]. rewrite (lex_step_sep _ _ _ Hc Hf). unfold after_token. rewrite Hf.
  cbn [mbind option_bind lex_step].
  destruct (lex_start c) as [[ts' m'']|]; cbn [mbind option_bind]; [|done].
  destruct (lex_from m'' s2); cbn [mbind option_bind]; [|done].
  by rewrite !app_assoc.
Qed.

Lemma lex_valid_ident L : valid_ident L = true -> lex L = Some [TId L].
Proof.
  destruct L as [|c L]; [done|]. simpl. intros [Hc HL]%andb_prop.
  unfold lex. cbn [lex_from lex_step]. rewrite ident_start_lex by done. cbn [mbind option_bind].
  rewrite lex_bind_nil. rewrite <- (string_app_nil_r L) at 1. rewrite lex_word_app by done.
  by rewrite string_app_cons, string_app_nil.
Qed.

(** An identifier followed by a separator lexes to one token. *)
Lemma lex_ident_sep L c s :
  valid_ident L = true -> ident_char c = false ->
  lex_from LStart (L +:+ String c s) =
    ts ← lex_from LStart (String c s); Some (TId L :: ts).
Proof.
  intros HL Hc. rewrite lex_from_sep
    by first [done | change (is_Some (lex L)); by rewrite lex_valid_ident].
  change (lex_from LStart L) with (lex L). rewrite (lex_valid_ident L HL). cbn [mbind option_bind].
  by destruct (lex_from LStart (String c s)).
Qed.

Lemma lex_param_end k :
  valid_ident k = true -> lex_from (LWord true EmptyString) k = Some [TParam k].
Proof.
  intros Hk. rewrite <- (string_app_nil_r k) at 1.
  rewrite lex_word_app by (destruct k as [|c k]; [done|]; simpl in *;
                           apply andb_prop in Hk as [Hc Hk]; by rewrite ident_start_char).
  rewrite string_app_nil. by destruct k.
Qed.

(** A parameter name after [$], followed by a separator. *)
Lemma lex_param_sep k c s :
  valid_ident k = true -> ident_char c = false ->
  lex_from (LWord true EmptyString) (k +:+ String c s) =
    ts ← lex_from LStart (String c s); Some (TParam k :: ts).
Proof.
  intros Hk Hc. rewrite lex_from_sep by first [done | by rewrite lex_param_end].
  rewrite lex_param_end by done. cbn [mbind option_bind].
  by destruct (lex_from LStart (String c s)).
Qed.

#[export] Hint Rewrite lex_ident_sep lex_param_sep using (done || reflexivity) : neo_simpl.

(** An identifier at the start of a token is one word. *)
Lemma lex_from_ident L s :
  valid_ident L = true -> lex_from LStart (L +:+ s) = lex_from (LWord false L) s.
Proof.
  destruct L as [|c L]; [done|]. intros [Hc HL]%andb_prop.
  rewrite string_app_cons. cbn [lex_from lex_step]. rewrite ident_start_lex by done.
  cbn [mbind option_bind]. rewrite lex_bind_nil, lex_word_app by done.
  by rewrite string_app_cons, string_app_nil.
Qed.

Lemma valid_ident_chars L : valid_ident L = true -> all_ident_chars L = true.
Proof. destruct L as [|c L]; [done|]. simpl. intros [Hc HL]%andb_prop. by rewrite ident_start_char. Qed.

(** [lex_pieces] lexes a text made of literal pieces and identifier
    variables: a variable is crossed as one word ([lex_from_ident],
    [lex_word_app]); a literal is run through [lex_run], which [vm_compute]
    evaluates on that subterm only; the option binds are then reduced. *)
Ltac is_literal s :=
  lazymatch s with
  | EmptyString => idtac
  | String _ ?r => is_literal r
  end.

Ltac lex_eval_run :=
  match goal with
  | |- context [lex_run ?m ?p] =>
      let x := eval vm_compute in (lex_run m p) in change (lex_run m p) with x
  | |- context [lex_from ?m ?s] =>
      is_literal s;
      let x := eval vm_compute in (lex_from m s) in change (lex_from m s) with x
  end.

Ltac lex_advance :=
  rewrite ?string_app_assoc;
  first [ match goal with
          | |- context [lex_from LStart (?L +:+ ?s)] =>
              is_var L; rewrite (lex_from_ident L s) by done
          end
        | match goal with
          | |- context [lex_from (LWord ?q ?w) (?L +:+ ?s)] =>
              is_var L; rewrite (lex_word_app q w L s) by (by apply valid_ident_chars)
          end
        | match goal with
          | |- context [lex_from ?m (?p +:+ ?s)] =>
              assert_fails (is_var p); rewrite (lex_from_app m p s)
          end
        | lex_eval_run ];
  cbn [mbind option_bind].

Ltac lex_pieces := repeat lex_advance.

End Cypher.
