(* ===== verification/Graph.v ===== *)
(** * The graph store behind the driver

    The database server is outside the repository; spec §3 and §4.1 describe
    what the wrapper relies on: nodes carry labels and scalar properties,
    relationships are directed and typed, a node is deleted together with
    its relationships ("detach-delete", no dangling edges).  This file holds
    the store as finite maps from ids to records, the uniqueness
    constraints of its schema (spec §4.1 lists constraint violations among
    the errors the wrapper passes on), its primitive updates, and the
    well-formedness invariant [graph_wf] (fresh ids, no dangling edge,
    constraints satisfied) that the theorems on a store assume. *)

From S2P Require Import Prelude.

Module Graph.

(** Scalar property values (spec §3: strings, numbers, booleans); Python's
    [None] travels as [VNull]. *)
Inductive value : Type :=
  | VNull
  | VBool (b : bool)
  | VInt (z : Z)
  | VStr (s : string).

#[export] Instance value_eq_dec : EqDecision value.
Proof. solve_decision. Defined.

(** A Python [dict] of properties: an association list in insertion order
    (the order [delete_node] iterates its keys in). *)
Definition pdict : Type := list (string * value).

Record node : Type := Node {
  n_labels : list string;
  n_props : gmap string value }.

Record rel : Type := Rel {
  r_src : nat;
  r_type : string;
  r_dst : nat }.

(** The store: nodes and relationships by id (both drawn from one id
    counter), the names of the databases the server hosts, and the
    uniqueness constraints of its schema: [(L, k)] asks that no two nodes
    labelled [L] have the same value for [k]. *)
Record graph : Type := Graph {
  g_nodes : gmap nat node;
  g_rels : gmap nat rel;
  g_next : nat;
  g_dbs : list string;
  g_unique : list (string * string) }.

(** A store with no node, no relationship and no constraint. *)
Definition empty_graph (dbs : list string) : graph := Graph ∅ ∅ 0 dbs [].

(** Setting a property to [null] does not store it. *)
Definition props_of_dict (d : pdict) : gmap string value :=
  list_to_map (filter (fun kv => kv.2 <> VNull) d).

Definition add_node (ls : list string) (ps : gmap string value) (g : graph) : nat * graph :=
  (g_next g,
   {| g_nodes := <[g_next g := Node ls ps]> (g_nodes g);
      g_rels := g_rels g;
      g_next := S (g_next g);
      g_dbs := g_dbs g;
      g_unique := g_unique g |}).

Definition add_rel (src : nat) (t : string) (dst : nat) (g : graph) : option (nat * graph) :=
  match g_nodes g !! src, g_nodes g !! dst with
  | Some _, Some _ =>
      Some (g_next g,
            {| g_nodes := g_nodes g;
               g_rels := <[g_next g := Rel src t dst]> (g_rels g);
               g_next := S (g_next g);
               g_dbs := g_dbs g;
               g_unique := g_unique g |})
  | _, _ => None
  end.

Definition incident (id : nat) (r : rel) : Prop := r_src r = id \/ r_dst r = id.

#[export] Instance incident_dec id r : Decision (incident id r).
Proof. unfold incident. apply _. Defined.

(** [DETACH DELETE]: the node and every relationship that touches it. *)
Definition detach_delete (id : nat) (g : graph) : graph :=
  {| g_nodes := delete id (g_nodes g);
     g_rels := filter (fun kr => ~ incident id kr.2) (g_rels g);
     g_next := g_next g;
     g_dbs := g_dbs g;
     g_unique := g_unique g |}.

(** Deleting several nodes one after the other, as [DETACH DELETE] does
    once per row. *)
Definition detach_all (ids : list nat) (g : graph) : graph :=
  foldl (fun g i => detach_delete i g) g ids.

(** ** Uniqueness constraints

    Two nodes clash on [(L, k)] when both carry the label [L] and the same
    value for [k]; a constraint holds when only a node clashes with
    itself.  [violated] is the first constraint of the schema that does not
    hold ([ConstraintValidationFailed] on the server). *)
Definition clash (L k : string) (n m : node) : Prop :=
  L ∈ n_labels n /\ L ∈ n_labels m /\ is_Some (n_props n !! k) /\ n_props n !! k = n_props m !! k.

#[export] Instance clash_dec L k n m : Decision (clash L k n m).
Proof. unfold clash. apply _. Defined.

Definition unique_holds (g : graph) (c : string * string) : Prop :=
  map_Forall (fun i n => map_Forall (fun j m => clash c.1 c.2 n m -> i = j) (g_nodes g)) (g_nodes g).

#[export] Instance unique_holds_dec g c : Decision (unique_holds g c).
Proof. unfold unique_holds. apply _. Defined.

(** The check the server makes when it creates node [n]: the first
    constraint under which [n] clashes with a stored node. *)
Definition fits (g : graph) (n : node) (c : string * string) : Prop :=
  map_Forall (fun _ m => ~ clash c.1 c.2 n m) (g_nodes g).

#[export] Instance fits_dec g n c : Decision (fits g n c).
Proof. unfold fits. apply _. Defined.

Definition new_clash (g : graph) (n : node) : option (string * string) :=
  find (fun c => negb (bool_decide (fits g n c))) (g_unique g).

Definition violated (g : graph) : option (string * string) :=
  find (fun c => negb (bool_decide (unique_holds g c))) (g_unique g).

(** ** Well-formedness

    Every id is below the counter, every relationship joins two nodes
    that exist (no dangling edge, spec §3 and P3), and the nodes satisfy
    the uniqueness constraints of the schema. *)
Record graph_wf (g : graph) : Prop := {
  wf_nodes_fresh : forall i n, g_nodes g !! i = Some n -> i < g_next g;
  wf_rels_fresh : forall i r, g_rels g !! i = Some r -> i < g_next g;
  wf_rels_ends : forall i r, g_rels g !! i = Some r ->
                   is_Some (g_nodes g !! r_src r) /\ is_Some (g_nodes g !! r_dst r);
  wf_unique : violated g = None }.

(** The invariant is decidable, so a concrete store is checked by [decide]. *)
#[export] Instance graph_wf_dec g : Decision (graph_wf g).
Proof.
  destruct (decide (map_Forall (fun i _ => i < g_next g) (g_nodes g) /\
                    map_Forall (fun i _ => i < g_next g) (g_rels g) /\
                    map_Forall (fun _ r => is_Some (g_nodes g !! r_src r) /\
                                           is_Some (g_nodes g !! r_dst r)) (g_rels g) /\
                    violated g = None))
    as [(H1 & H2 & H3 & H4)|H].
  - left. split; [exact H1|exact H2|exact H3|exact H4].
  - right. intros [Hn Hr He Hu]. apply H. split_and!; [exact Hn|exact Hr|exact He|exact Hu].
Defined.

(** Constraints see only the nodes and the schema. *)
Lemma violated_ext g1 g2 :
  g_nodes g1 = g_nodes g2 -> g_unique g1 = g_unique g2 -> violated g1 = violated g2.
Proof.
  intros Hn Hu. unfold violated. rewrite Hu. clear Hu.
  induction (g_unique g2) as [|c cs IH]; [done|].
  simpl. rewrite (bool_decide_ext (unique_holds g1 c) (unique_holds g2 c))
    by (unfold unique_holds; by rewrite Hn).
  by rewrite IH.
Qed.

Lemma new_clash_None g n c : new_clash g n = None -> c ∈ g_unique g -> fits g n c.
Proof.
  unfold new_clash. intros H Hc. apply list_elem_of_In in Hc.
  pose proof (find_none _ _ H c Hc) as Hf. by apply negb_false_iff, bool_decide_eq_true in Hf.
Qed.

Lemma add_rel_wf src t dst g i g' :
  graph_wf g -> add_rel src t dst g = Some (i, g') -> graph_wf g'.
Proof.
  intros [Hn Hr He Hu]. unfold add_rel.
  destruct (g_nodes g !! src) as [ns|] eqn:Es, (g_nodes g !! dst) as [nd|] eqn:Ed;
    intros H; simplify_eq.
  split; simpl.
  - intros j n Hj%Hn. lia.
  - intros j r. rewrite lookup_insert. case_decide; [lia|]. intros Hj%Hr. lia.
  - intros j r. rewrite lookup_insert. case_decide; [intros; simplify_eq; simpl; eauto|].
    apply He.
  - by rewrite (violated_ext _ g).
Qed.

Lemma detach_all_nodes ids g i :
  g_nodes (detach_all ids g) !! i = if decide (i ∈ ids) then None else g_nodes g !! i.
Proof.
  revert g. induction ids as [|j ids IH]; intros g; simpl; [done|].
  rewrite IH. simpl. rewrite lookup_delete.
  repeat case_decide; set_solver.
Qed.

Lemma detach_all_rels ids g j :
  g_rels (detach_all ids g) !! j =
    r ← g_rels g !! j; if decide (r_src r ∈ ids \/ r_dst r ∈ ids) then None else Some r.
Proof.
  revert g. induction ids as [|i ids IH]; intros g; simpl.
  - by destruct (g_rels g !! j).
  - rewrite IH. simpl. rewrite map_lookup_filter.
    destruct (g_rels g !! j) as [r|]; simpl; [|done].
    unfold incident. repeat (first [case_guard | case_decide]; simpl); set_solver.
Qed.

Lemma detach_all_next ids g : g_next (detach_all ids g) = g_next g.
Proof. revert g. induction ids; intros g; simpl; [done|]. by rewrite IHids. Qed.

Lemma detach_all_dbs ids g : g_dbs (detach_all ids g) = g_dbs g.
Proof. revert g. induction ids; intros g; simpl; [done|]. by rewrite IHids. Qed.

Lemma detach_all_unique ids g : g_unique (detach_all ids g) = g_unique g.
Proof. revert g. induction ids; intros g; simpl; [done|]. by rewrite IHids. Qed.

Lemma graph_eq g1 g2 :
  g_nodes g1 = g_nodes g2 -> g_rels g1 = g_rels g2 -> g_next g1 = g_next g2 ->
  g_dbs g1 = g_dbs g2 -> g_unique g1 = g_unique g2 -> g1 = g2.
Proof. destruct g1, g2; simpl; intros; by subst. Qed.

#[export] Hint Resolve add_rel_wf : neo.

End Graph.
