(* ===== verification/Exec.v ===== *)
(** * Query execution on the graph store

    How the server runs a parsed query (spec §4.1 and §6): clauses are
    executed in order on a table of rows (variable bindings), starting from
    one empty row.  [MATCH] extends every row with every match (so two
    [MATCH] clauses give all pairs), [WHERE] keeps the rows whose conditions
    hold ([null] never equals anything), [CREATE] runs once per row (a
    new node that clashes with a stored one under a uniqueness constraint
    fails the query), [DETACH DELETE] deletes the bound node with its
    relationships, [RETURN] projects.  A query runs as one auto-commit transaction: on an
    error nothing is written, which the result type makes structural (an
    error carries no store). *)

From S2P Require Import Prelude Cypher Graph.

Module Exec.
Import Cypher Graph.

(** Query parameters: the [dict] handed to [session.run]. *)
Inductive param : Type :=
  | PScalar (v : value)
  | PMap (d : pdict).

#[export] Instance param_eq_dec : EqDecision param.
Proof. solve_decision. Defined.

Definition params : Type := list (string * param).

Inductive db_error : Type :=
  | SyntaxError
  | ParameterMissing (p : string)
  | CypherTypeError
  | VariableNotDefined (v : string)
  | VariableAlreadyBound (v : string)
  | EntityNotFound
  | ConstraintValidationFailed (label key : string).

Definition row : Type := list (string * nat).

Inductive rvalue : Type :=
  | RNode (id : nat) (n : node)
  | RScalar (v : value).

Definition record : Type := list (string * rvalue).

(** ** Parameters and property tests *)

Definition scalar_param (ps : params) (p : string) : result db_error value :=
  match assoc p ps with
  | Some (PScalar v) => Ok v
  | Some (PMap _) => Err CypherTypeError
  | None => Err (ParameterMissing p)
  end.

(** The value of a literal, and of a field or condition's right-hand side. *)
Definition lit_value (l : lit) : value :=
  match l with
  | LitNull => VNull
  | LitBool b => VBool b
  | LitInt z => VInt z
  | LitStr s => VStr s
  end.

Definition eval_expr (ps : params) (e : expr) : result db_error value :=
  match e with
  | EParam p => scalar_param ps p
  | ELit l => Ok (lit_value l)
  end.

Definition field_values (ps : params) (fs : list (string * expr))
    : result db_error (list (string * value)) :=
  mapM_res (fun ke => v ← eval_expr ps ke.2; Ok (ke.1, v)) fs.

(** Property maps are not allowed as parameters in a [MATCH] pattern. *)
Definition match_props (ps : params) (pp : props_pat) : result db_error (list (string * value)) :=
  match pp with
  | PNone => Ok []
  | PParam _ => Err SyntaxError
  | PFields fs => field_values ps fs
  end.

Definition create_props (ps : params) (pp : props_pat) : result db_error (gmap string value) :=
  match pp with
  | PNone => Ok ∅
  | PParam p =>
      match assoc p ps with
      | Some (PMap d) => Ok (props_of_dict d)
      | Some (PScalar _) => Err CypherTypeError
      | None => Err (ParameterMissing p)
      end
  | PFields fs => kvs ← field_values ps fs; Ok (props_of_dict kvs)
  end.

(** Cypher equality in a predicate: [null] equals nothing. *)
Definition cy_eq (w v : value) : bool :=
  match w with
  | VNull => false
  | _ => bool_decide (w = v)
  end.

Definition prop_is (n : node) (k : string) (v : value) : bool :=
  match n_props n !! k with
  | Some w => cy_eq w v
  | None => false
  end.

Definition node_ok (ls : list string) (kvs : list (string * value)) (n : node) : bool :=
  forallb (fun l => bool_decide (l ∈ n_labels n)) ls && forallb (fun kv => prop_is n kv.1 kv.2) kvs.

(** ** MATCH *)

Definition bind_node (g : graph) (np : node_pat) (kvs : list (string * value))
    (r : row) (id : nat) : option row :=
  match g_nodes g !! id with
  | Some n =>
      if node_ok (np_labels np) kvs n then
        match assoc (np_var np) r with
        | Some id' => if decide (id = id') then Some r else None
        | None => Some ((np_var np, id) :: r)
        end
      else None
  | None => None
  end.

Definition match_pattern (g : graph) (ps : params) (p : pattern) : result db_error (row -> list row) :=
  match p with
  | PNode a =>
      kva ← match_props ps (np_props a);
      Ok (fun r => omap (bind_node g a kva r) (map fst (map_to_list (g_nodes g))))
  | PPath a t b =>
      kva ← match_props ps (np_props a);
      kvb ← match_props ps (np_props b);
      Ok (fun r => omap (fun kr : nat * rel =>
                           if String.eqb (r_type kr.2) t then
                             r1 ← bind_node g a kva r (r_src kr.2); bind_node g b kvb r1 (r_dst kr.2)
                           else None)
                        (map_to_list (g_rels g)))
  end.

Definition cond_holds (g : graph) (ps : params) (r : row) (c : cond) : result db_error bool :=
  id ← of_option (VariableNotDefined (c_var c)) (assoc (c_var c) r);
  v ← eval_expr ps (c_val c);
  Ok (match g_nodes g !! id with
      | Some n => prop_is n (c_key c) v
      | None => false
      end).

Fixpoint conds_hold (g : graph) (ps : params) (r : row) (cs : list cond) : result db_error bool :=
  match cs with
  | [] => Ok true
  | c :: cs' =>
      cond_holds g ps r c ≫= fun b : bool => if b then conds_hold g ps r cs' else Ok false
  end.

Fixpoint filter_rows (g : graph) (ps : params) (cs : list cond) (rows : list row)
    : result db_error (list row) :=
  match rows with
  | [] => Ok []
  | r :: rs =>
      conds_hold g ps r cs ≫= fun b : bool =>
      rs' ← filter_rows g ps cs rs;
      Ok (if b then r :: rs' else rs')
  end.

(** ** CREATE *)

(** A node of a [CREATE] pattern: a fresh node, or, at the end of a path,
    a node the row already binds.  A fresh node that clashes with a stored
    one under a uniqueness constraint fails the query. *)
Definition create_node_pat (ps : params) (endpoint : bool) (np : node_pat) (r : row) (g : graph)
    : result db_error (row * graph) :=
  match assoc (np_var np) r with
  | Some _ =>
      match endpoint, np_labels np, np_props np with
      | true, [], PNone => Ok (r, g)
      | _, _, _ => Err (VariableAlreadyBound (np_var np))
      end
  | None =>
      props ← create_props ps (np_props np);
      match new_clash g (Node (np_labels np) props) with
      | Some (L, k) => Err (ConstraintValidationFailed L k)
      | None => let '(id, g') := add_node (np_labels np) props g in Ok ((np_var np, id) :: r, g')
      end
  end.

Definition create_row (ps : params) (p : pattern) (r : row) (g : graph) : result db_error (row * graph) :=
  match p with
  | PNode a => create_node_pat ps false a r g
  | PPath a t b =>
      '(r1, g1) ← create_node_pat ps true a r g;
      '(r2, g2) ← create_node_pat ps true b r1 g1;
      ida ← of_option (VariableNotDefined (np_var a)) (assoc (np_var a) r2);
      idb ← of_option (VariableNotDefined (np_var b)) (assoc (np_var b) r2);
      '(_, g3) ← of_option EntityNotFound (add_rel ida t idb g2);
      Ok (r2, g3)
  end.

Fixpoint create_rows (ps : params) (p : pattern) (rows : list row) (g : graph)
    : result db_error (list row * graph) :=
  match rows with
  | [] => Ok ([], g)
  | r :: rs =>
      '(r', g1) ← create_row ps p r g;
      '(rs', g2) ← create_rows ps p rs g1;
      Ok (r' :: rs', g2)
  end.

(** ** DETACH DELETE and RETURN *)

Fixpoint delete_rows (v : string) (rows : list row) (g : graph) : result db_error graph :=
  match rows with
  | [] => Ok g
  | r :: rs =>
      id ← of_option (VariableNotDefined v) (assoc v r);
      delete_rows v rs (detach_delete id g)
  end.

Definition ret_value (g : graph) (r : row) (it : ret_item) : result db_error (string * rvalue) :=
  match it with
  | RVar v =>
      id ← of_option (VariableNotDefined v) (assoc v r);
      n ← of_option EntityNotFound (g_nodes g !! id);
      Ok (v, RNode id n)
  | RProp v k =>
      id ← of_option (VariableNotDefined v) (assoc v r);
      n ← of_option EntityNotFound (g_nodes g !! id);
      Ok (v +:+ "." +:+ k, RScalar (default VNull (n_props n !! k)))
  end.

(** ** Clauses and queries *)

Record qstate : Type := QState {
  qs_graph : graph;
  qs_rows : list row;
  qs_out : list record }.

Definition show_record (name : string) : record :=
  [("name", RScalar (VStr name)); ("currentStatus", RScalar (VStr "online"))].

Definition exec_clause (ps : params) (st : qstate) (c : clause) : result db_error qstate :=
  let g := qs_graph st in
  match c with
  | CMatch p cs =>
      ext ← match_pattern g ps p;
      rows ← filter_rows g ps cs (flat_map ext (qs_rows st));
      Ok (QState g rows (qs_out st))
  | CCreate p =>
      '(rows, g') ← create_rows ps p (qs_rows st) g;
      Ok (QState g' rows (qs_out st))
  | CDetachDelete v =>
      g' ← delete_rows v (qs_rows st) g;
      Ok (QState g' (qs_rows st) (qs_out st))
  | CReturn its =>
      out ← mapM_res (fun r => mapM_res (ret_value g r) its) (qs_rows st);
      Ok (QState g (qs_rows st) out)
  | CShowDatabases =>
      Ok (QState g (qs_rows st) (map show_record (g_dbs g)))
  end.

Fixpoint exec_clauses (ps : params) (st : qstate) (q : query) : result db_error qstate :=
  match q with
  | [] => Ok st
  | c :: q' => st' ← exec_clause ps st c; exec_clauses ps st' q'
  end.

(** A query may not end in [MATCH]; [RETURN] only ends it; [SHOW
    DATABASES] stands alone. *)
Fixpoint clauses_ok (q : query) : bool :=
  match q with
  | [] => false
  | [CMatch _ _] => false
  | [CShowDatabases] => false
  | [_] => true
  | CReturn _ :: _ => false
  | CShowDatabases :: _ => false
  | _ :: q' => clauses_ok q'
  end.

Definition valid_query (q : query) : bool :=
  match q with
  | [CShowDatabases] => true
  | _ => clauses_ok q
  end.

Definition expr_params (e : expr) : list string :=
  match e with
  | EParam p => [p]
  | ELit _ => []
  end.

Definition props_params (pp : props_pat) : list string :=
  match pp with
  | PNone => []
  | PParam p => [p]
  | PFields fs => flat_map (fun ke => expr_params ke.2) fs
  end.

Definition pattern_params (p : pattern) : list string :=
  match p with
  | PNode a => props_params (np_props a)
  | PPath a _ b => props_params (np_props a) ++ props_params (np_props b)
  end.

Definition clause_params (c : clause) : list string :=
  match c with
  | CMatch p cs => pattern_params p ++ flat_map (fun c => expr_params (c_val c)) cs
  | CCreate p => pattern_params p
  | _ => []
  end.

(** Parameters are checked before any row is processed. *)
Definition missing_param (ps : params) (q : query) : option string :=
  head (filter (fun p => ~ is_Some (assoc p ps)) (flat_map clause_params q)).

Definition exec_query (ps : params) (q : query) (g : graph) : result db_error (graph * list record) :=
  if valid_query q then
    match missing_param ps q with
    | Some p => Err (ParameterMissing p)
    | None => st ← exec_clauses ps (QState g [[]] []) q; Ok (qs_graph st, qs_out st)
    end
  else Err SyntaxError.

(** The server's side of [session.run(query, parameters)]; a query that
    fails leaves the store as it was (the caller keeps the old graph). *)
Definition run_cypher (text : string) (ps : params) (g : graph) : result db_error (graph * list record) :=
  q ← of_option SyntaxError (parse text); exec_query ps q g.

(** ** Abstract specification of the wrapper's three updates

    What spec §4.1 promises, stated on the store directly: [create_node]
    adds one node; [delete_node] removes exactly the nodes of the label
    whose properties equal every given pair, with every relationship that
    touches one of them; [create_relationship] adds one edge per pair of
    matching start and end nodes. *)

Definition dict_params (P : pdict) : params := map (fun kv => (kv.1, PScalar kv.2)) P.

Definition matches_dict (L : string) (P : pdict) (n : node) : bool :=
  bool_decide (L ∈ n_labels n) && forallb (fun kv => prop_is n kv.1 kv.2) P.

Definition doomed (L : string) (P : pdict) (g : graph) (i : nat) : bool :=
  match g_nodes g !! i with
  | Some n => matches_dict L P n
  | None => false
  end.

Definition delete_matching (L : string) (P : pdict) (g : graph) : graph :=
  {| g_nodes := filter (fun kn => matches_dict L P kn.2 = false) (g_nodes g);
     g_rels := filter (fun kr => doomed L P g (r_src kr.2) = false /\
                                 doomed L P g (r_dst kr.2) = false) (g_rels g);
     g_next := g_next g;
     g_dbs := g_dbs g;
     g_unique := g_unique g |}.

(** A node id passes a pattern's label and property test. *)
Definition node_at_ok (g : graph) (ls : list string) (kvs : list (string * value)) (i : nat) : bool :=
  match g_nodes g !! i with
  | Some n => node_ok ls kvs n
  | None => false
  end.

Definition prop_at (g : graph) (i : nat) (k : string) (v : value) : bool :=
  match g_nodes g !! i with
  | Some n => prop_is n k v
  | None => false
  end.

(** The ids of the nodes a single-node pattern with labels [ls] and
    property tests [kvs] matches, in the order [MATCH] visits them. *)
Definition matching_ids (g : graph) (ls : list string) (kvs : list (string * value)) : list nat :=
  filter (fun i => node_at_ok g ls kvs i = true) (map fst (map_to_list (g_nodes g))).

(** Adding the edge [i -[t]-> j] (nothing if an end is missing). *)
Definition link (t : string) (g : graph) (ij : nat * nat) : graph :=
  match add_rel ij.1 t ij.2 g with
  | Some (_, g') => g'
  | None => g
  end.

(** [create_relationship]'s promise: one edge per pair, in order. *)
Definition link_pairs (t : string) (pairs : list (nat * nat)) (g : graph) : graph :=
  foldl (link t) g pairs.

(** ** Functional behaviour of the wrapper's queries *)

(** The query of [create_node] adds one node with the label and the
    non-null properties of the dict, under the next id, and returns it,
    unless the node clashes with a stored one under a constraint. *)
Lemma exec_create_node L d g :
  exec_query [("properties", PMap d)]
             [CCreate (PNode (NodePat "a" [L] (PParam "properties"))); CReturn [RVar "a"]] g
  = match new_clash g (Node [L] (props_of_dict d)) with
    | Some (L', k) => Err (ConstraintValidationFailed L' k)
    | None => Ok ((add_node [L] (props_of_dict d) g).2,
                  [[("a", RNode (g_next g) (Node [L] (props_of_dict d)))]])
    end.
Proof.
  unfold exec_query. simpl. unfold create_node_pat. simpl.
  destruct (new_clash g _) as [[L' k]|]; simpl; [done|]. by rewrite lookup_insert_eq.
Qed.

(** *** Lemmas on the row engine *)

Lemma omap_bind_node_fresh g np kvs r ids :
  assoc (np_var np) r = None ->
  omap (bind_node g np kvs r) ids =
    map (fun i => (np_var np, i) :: r) (filter (fun i => node_at_ok g (np_labels np) kvs i = true) ids).
Proof.
  intros Hr. induction ids as [|i ids IH]; [done|]. rewrite list_omap_cons, filter_cons.
  case_decide as Hok; simpl; rewrite <- IH; unfold node_at_ok in Hok; unfold bind_node; rewrite Hr;
    destruct (g_nodes g !! i) as [n|]; try done; by destruct (node_ok _ _ n).
Qed.

Lemma omap_bind_node_nil g np kvs ids :
  omap (bind_node g np kvs []) ids =
    map (fun i => [(np_var np, i)]) (filter (fun i => node_at_ok g (np_labels np) kvs i = true) ids).
Proof. by apply omap_bind_node_fresh. Qed.

Lemma assoc_dict_params P k v :
  (k, v) ∈ P -> NoDup (map fst P) -> assoc k (dict_params P) = Some (PScalar v).
Proof.
  intros Hin Hnd. apply assoc_In.
  - apply list_elem_of_In, in_map_iff. exists (k, v). split; [done|]. by apply list_elem_of_In.
  - unfold dict_params. by rewrite map_map.
Qed.

Lemma conds_hold_single g ps v i (Q : pdict) :
  Forall (fun kv => assoc kv.1 ps = Some (PScalar kv.2)) Q ->
  conds_hold g ps [(v, i)] (map (fun k => Cond v k (EParam k)) (map fst Q)) =
    Ok (forallb (fun kv => prop_at g i kv.1 kv.2) Q).
Proof.
  induction 1 as [|[k w] Q Hk HQ IH]; [done|]. simpl in *.
  unfold cond_holds, eval_expr, scalar_param. simpl. rewrite decide_True, Hk by done. simpl.
  fold (prop_at g i k w). by destruct (prop_at g i k w).
Qed.

Lemma filter_rows_single g ps cs v (f : nat -> bool) ids :
  (forall i, conds_hold g ps [(v, i)] cs = Ok (f i)) ->
  filter_rows g ps cs (map (fun i => [(v, i)]) ids) =
    Ok (map (fun i => [(v, i)]) (filter (fun i => f i = true) ids)).
Proof.
  intros Hf. induction ids as [|i ids IH]; [done|]. simpl.
  rewrite Hf. simpl. rewrite IH. simpl. rewrite filter_cons.
  by destruct (f i); case_decide.
Qed.

Lemma delete_rows_single v ids g :
  delete_rows v (map (fun i => [(v, i)]) ids) g = Ok (detach_all ids g).
Proof.
  revert g. induction ids as [|i ids IH]; intros g; [done|]. simpl.
  rewrite decide_True by done. apply IH.
Qed.

(** The parameters the conditions of [delete_node]'s query name: its keys. *)
Lemma cond_params_keys v ks :
  flat_map (fun c => expr_params (c_val c)) (map (fun k => Cond v k (EParam k)) ks) = ks.
Proof. induction ks as [|k ks IH]; [done|]. simpl. by rewrite IH. Qed.

Lemma missing_param_dict P cs :
  (forall k, k ∈ cs -> k ∈ map fst P) ->
  head (filter (fun p => ~ is_Some (assoc p (dict_params P))) cs) = None.
Proof.
  intros Hcs. induction cs as [|k cs IH]; [done|]. rewrite filter_cons.
  rewrite decide_False; [apply IH; set_solver|].
  assert (Hk : k ∈ map fst P) by set_solver.
  apply list_elem_of_In, in_map_iff in Hk as [[k' v] [<- Hin]].
  intros []. clear -Hin. induction P as [|[k v'] P IH]; simpl in *; [done|].
  case_decide; [by eexists|]. destruct Hin as [Heq|Hin]; [simplify_eq|]; auto.
Qed.

Lemma elem_of_keys {A} (m : gmap nat A) i : i ∈ map fst (map_to_list m) <-> is_Some (m !! i).
Proof.
  rewrite list_elem_of_In, in_map_iff. split.
  - intros [[j x] [<- Hin]]. apply list_elem_of_In, elem_of_map_to_list in Hin. by eexists.
  - intros [x Hx]. exists (i, x). split; [done|]. by apply list_elem_of_In, elem_of_map_to_list.
Qed.

(** The rows that reach [DETACH DELETE] are exactly the doomed nodes. *)
Lemma doomed_ids L P g i :
  i ∈ filter (fun i => forallb (fun kv => prop_at g i kv.1 kv.2) P = true)
        (filter (fun i => node_at_ok g [L] [] i = true) (map fst (map_to_list (g_nodes g))))
  <-> doomed L P g i = true.
Proof.
  rewrite !list_elem_of_filter, elem_of_keys.
  unfold doomed, node_at_ok, prop_at, matches_dict, node_ok.
  destruct (g_nodes g !! i) as [n|]; simpl.
  - rewrite !andb_true_r, andb_true_iff. naive_solver.
  - split; [intros (_ & ? & _); done|done].
Qed.

(** The query of [delete_node] (with a non-empty dict, whose keys are
    distinct as in any Python dict) deletes exactly the nodes of the label
    that carry every given property value, together with every
    relationship touching one of them, and returns no record: the row
    engine refines the abstract [delete_matching]. *)
Lemma exec_delete_node L P g :
  NoDup (map fst P) ->
  exec_query (dict_params P)
    [CMatch (PNode (NodePat "a" [L] PNone)) (map (fun k => Cond "a" k (EParam k)) (map fst P));
     CDetachDelete "a"] g
  = Ok (delete_matching L P g, []).
Proof.
  intros Hnd. unfold exec_query. simpl. unfold missing_param.
  rewrite missing_param_dict.
  2:{ intros k. simpl. by rewrite ?app_nil_r, cond_params_keys. }
  rewrite app_nil_r, omap_bind_node_nil. simpl.
  rewrite (filter_rows_single _ _ _ _ (fun i => forallb (fun kv => prop_at g i kv.1 kv.2) P)).
  2:{ intros i. apply conds_hold_single. apply Forall_forall. intros [k v] Hin.
      by apply assoc_dict_params. }
  simpl. rewrite delete_rows_single. simpl. f_equal. f_equal. symmetry.
  apply graph_eq; simpl; rewrite ?detach_all_next, ?detach_all_dbs, ?detach_all_unique;
    [| |done|done|done];
    apply map_eq; intros i.
  - rewrite detach_all_nodes, map_lookup_filter. case_decide as Hi.
    + apply doomed_ids in Hi. unfold doomed in Hi.
      destruct (g_nodes g !! i); simpl; [|done]. case_guard; simpl; congruence.
    + rewrite doomed_ids in Hi. unfold doomed in Hi.
      destruct (g_nodes g !! i) as [n|]; simpl; [|done].
      case_guard; simpl; [done|]. destruct (matches_dict L P n); naive_solver.
  - rewrite detach_all_rels, map_lookup_filter.
    destruct (g_rels g !! i) as [r|]; simpl; [|done].
    case_decide as Hd; simpl; case_guard as Hg; simpl; try done;
      rewrite !doomed_ids in Hd;
      destruct (doomed L P g (r_src r)), (doomed L P g (r_dst r)); naive_solver.
Qed.

(** *** The contract of [delete_matching] *)

(** A [None] value in the dict matches no node ([null] equals nothing),
    so the delete removes nothing. *)
Lemma matches_dict_null L P k n : (k, VNull) ∈ P -> matches_dict L P n = false.
Proof.
  intros Hin. unfold matches_dict. destruct (forallb _ P) eqn:E; [|by rewrite andb_false_r].
  rewrite forallb_forall in E. specialize (E (k, VNull) (proj1 (list_elem_of_In _ _) Hin)).
  unfold prop_is, cy_eq in E. simpl in E. by destruct (n_props n !! k) as [[]|].
Qed.

Lemma delete_matching_null L P k g : (k, VNull) ∈ P -> delete_matching L P g = g.
Proof.
  intros Hin. apply graph_eq; simpl; [| |done|done|done]; apply map_filter_id.
  - intros i n _. simpl. by rewrite (matches_dict_null _ _ k).
  - intros i r _. simpl. unfold doomed.
    split; [destruct (g_nodes g !! r_src r)|destruct (g_nodes g !! r_dst r)];
      rewrite ?(matches_dict_null _ _ k); done.
Qed.

Lemma delete_matching_nodes L P g i n :
  g_nodes (delete_matching L P g) !! i = Some n <->
  g_nodes g !! i = Some n /\ matches_dict L P n = false.
Proof. unfold delete_matching. simpl. by rewrite map_lookup_filter_Some. Qed.

Lemma delete_matching_alive L P g i :
  is_Some (g_nodes (delete_matching L P g) !! i) <->
  is_Some (g_nodes g !! i) /\ doomed L P g i = false.
Proof.
  unfold doomed. split.
  - intros [n Hn%delete_matching_nodes]. destruct Hn as [-> ?]. by split; [eexists|].
  - intros [[n Hn] Hd]. rewrite Hn in Hd. exists n. by apply delete_matching_nodes.
Qed.

Lemma delete_matching_rels L P g j r :
  g_rels (delete_matching L P g) !! j = Some r <->
  g_rels g !! j = Some r /\ doomed L P g (r_src r) = false /\ doomed L P g (r_dst r) = false.
Proof. unfold delete_matching. simpl. by rewrite map_lookup_filter_Some. Qed.

(** *** Creating then deleting the same node *)

Lemma props_of_dict_lookup P k v :
  NoDup (map fst P) -> (k, v) ∈ P -> v <> VNull -> props_of_dict P !! k = Some v.
Proof.
  intros Hnd Hin Hv. unfold props_of_dict. apply elem_of_list_to_map_1'.
  - intros y [_ Hy]%list_elem_of_filter.
    pose proof (assoc_In _ _ _ Hin Hnd). pose proof (assoc_In _ _ _ Hy Hnd). congruence.
  - by apply list_elem_of_filter.
Qed.

Lemma matches_new_node L P :
  NoDup (map fst P) -> Forall (fun kv => kv.2 <> VNull) P ->
  matches_dict L P (Node [L] (props_of_dict P)) = true.
Proof.
  intros Hnd Hnn. unfold matches_dict. apply andb_true_intro. split.
  - apply bool_decide_eq_true. simpl. set_solver.
  - apply forallb_forall. intros [k v] Hin%list_elem_of_In.
    rewrite Forall_forall in Hnn. specialize (Hnn _ Hin). simpl in Hnn.
    unfold prop_is. simpl. rewrite (props_of_dict_lookup P k v) by done.
    unfold cy_eq. destruct v; try done; by apply bool_decide_eq_true.
Qed.

Lemma lookup_fresh g : graph_wf g -> g_nodes g !! g_next g = None.
Proof.
  intros Hwf. destruct (g_nodes g !! g_next g) eqn:E; [|done].
  apply (wf_nodes_fresh _ Hwf) in E. lia.
Qed.

(** When no node matched before, the freshly created node is the only
    doomed one, and deleting it gives back the nodes and relationships. *)
Lemma delete_matching_add_node L P g :
  graph_wf g -> NoDup (map fst P) -> Forall (fun kv => kv.2 <> VNull) P ->
  (forall i n, g_nodes g !! i = Some n -> matches_dict L P n = false) ->
  delete_matching L P (add_node [L] (props_of_dict P) g).2 =
    {| g_nodes := g_nodes g; g_rels := g_rels g; g_next := S (g_next g); g_dbs := g_dbs g;
       g_unique := g_unique g |}.
Proof.
  intros Hwf Hnd Hnn Hnone. pose proof (matches_new_node L P Hnd Hnn) as Hnew.
  pose proof (lookup_fresh g Hwf) as Hfresh.
  assert (Hdoom : forall i, doomed L P (add_node [L] (props_of_dict P) g).2 i = bool_decide (i = g_next g)).
  { intros i. unfold doomed. simpl. rewrite lookup_insert. case_decide; subst.
    - by rewrite bool_decide_eq_true_2.
    - rewrite bool_decide_eq_false_2 by done.
      destruct (g_nodes g !! i) eqn:E; eauto. }
  apply graph_eq; simpl; [| |done|done|done]; apply map_eq; intros i.
  - rewrite map_lookup_filter, lookup_insert. case_decide; subst; simpl.
    + rewrite Hfresh. case_guard; simpl; congruence.
    + destruct (g_nodes g !! i) as [n|] eqn:E; simpl; [|done].
      case_guard as Hg; simpl; [done|]. by rewrite (Hnone i n E) in Hg.
  - rewrite map_lookup_filter. destruct (g_rels g !! i) as [r|] eqn:E; simpl; [|done].
    destruct (wf_rels_ends _ Hwf _ _ E) as [Hs Hd].
    case_guard as Hg; simpl; [done|]. exfalso. apply Hg. rewrite !Hdoom.
    split; apply bool_decide_eq_false_2; intros Heq; rewrite Heq, Hfresh in *;
      by destruct Hs || by destruct Hd.
Qed.

(** *** Linking every matching pair *)

Lemma filter_rows_nil g ps rows : filter_rows g ps [] rows = Ok rows.
Proof. induction rows as [|r rows IH]; [done|]. simpl. by rewrite IH. Qed.

Lemma link_nodes t g ij : g_nodes (link t g ij) = g_nodes g.
Proof. unfold link, add_rel. by repeat case_match; simplify_eq. Qed.

Lemma link_pairs_nodes t pairs g : g_nodes (link_pairs t pairs g) = g_nodes g.
Proof.
  revert g. induction pairs as [|ij pairs IH]; intros g; [done|]. simpl.
  by rewrite IH, link_nodes.
Qed.

Lemma matching_ids_some g ls kvs i : i ∈ matching_ids g ls kvs -> is_Some (g_nodes g !! i).
Proof.
  unfold matching_ids, node_at_ok. intros [Hi _]%list_elem_of_filter.
  by destruct (g_nodes g !! i).
Qed.

Lemma flat_map_prod {A B C} (h : A -> B -> C) (xs : list A) (ys : list B) :
  flat_map (fun x => map (h x) ys) xs = map (fun xy => h xy.1 xy.2) (list_prod xs ys).
Proof.
  induction xs as [|x xs IH]; [done|]. simpl. rewrite IH, map_app, map_map. done.
Qed.

Lemma create_rows_link ps T pairs g :
  Forall (fun ij => is_Some (g_nodes g !! ij.1) /\ is_Some (g_nodes g !! ij.2)) pairs ->
  create_rows ps (PPath (NodePat "a" [] PNone) T (NodePat "b" [] PNone))
    (map (fun ij => [("b", ij.2); ("a", ij.1)]) pairs) g
  = Ok (map (fun ij => [("b", ij.2); ("a", ij.1)]) pairs, link_pairs T pairs g).
Proof.
  revert g. induction pairs as [|[i j] pairs IH]; intros g Hp; [done|].
  apply Forall_cons in Hp as [[[ni Hi] [nj Hj]] Hp]. simpl in *.
  unfold add_rel. rewrite Hi, Hj. simpl. unfold link at 1. simpl. unfold add_rel. rewrite Hi, Hj.
  rewrite IH; [done|]. done.
Qed.

(** The query of [create_relationship]: one [T] edge from every node of
    [SL] named [sv] to every node of [EL] named [ev], and no record. *)
Lemma exec_create_relationship T SL EL sv ev g :
  exec_query [("start_node", PScalar sv); ("end_node", PScalar ev)]
    [CMatch (PNode (NodePat "a" [SL] (PFields [("name", EParam "start_node")]))) [];
     CMatch (PNode (NodePat "b" [EL] (PFields [("name", EParam "end_node")]))) [];
     CCreate (PPath (NodePat "a" [] PNone) T (NodePat "b" [] PNone))] g
  = Ok (link_pairs T (list_prod (matching_ids g [SL] [("name", sv)])
                                (matching_ids g [EL] [("name", ev)])) g, []).
Proof.
  unfold exec_query. simpl.
  rewrite omap_bind_node_nil, filter_rows_nil, app_nil_r. simpl.
  fold (matching_ids g [SL] [("name", sv)]).
  set (A := matching_ids g [SL] [("name", sv)]). set (B := matching_ids g [EL] [("name", ev)]).
  assert (Hrows : forall bnp, np_var bnp = "b" -> np_labels bnp = [EL] ->
    flat_map (fun r => omap (bind_node g bnp [("name", ev)] r) (map fst (map_to_list (g_nodes g))))
      (map (fun i => [("a", i)]) A) = map (fun ij => [("b", ij.2); ("a", ij.1)]) (list_prod A B)).
  { intros bnp Hv Hl. rewrite <- (flat_map_prod (fun i j => [("b", j); ("a", i)])).
    induction A as [|i A IH]; [done|]. simpl. rewrite IH, omap_bind_node_fresh, Hv, Hl by (by rewrite Hv).
    done. }
  rewrite Hrows by done. rewrite filter_rows_nil. simpl.
  rewrite create_rows_link; [done|].
  apply Forall_forall. intros [i j] [Hi Hj]%list_elem_of_In%in_prod_iff.
  split; eapply matching_ids_some; apply list_elem_of_In; eassumption.
Qed.

Lemma rels_fresh g : graph_wf g -> g_rels g !! g_next g = None.
Proof.
  intros Hwf. destruct (g_rels g !! g_next g) eqn:E; [|done].
  apply (wf_rels_fresh _ Hwf) in E. lia.
Qed.

(** Linking pairs of existing nodes keeps the store well formed and adds
    exactly one relationship per pair. *)
Lemma link_pairs_wf_size T pairs g :
  graph_wf g ->
  Forall (fun ij => is_Some (g_nodes g !! ij.1) /\ is_Some (g_nodes g !! ij.2)) pairs ->
  graph_wf (link_pairs T pairs g) /\
  size (g_rels (link_pairs T pairs g)) = size (g_rels g) + length pairs.
Proof.
  revert g. induction pairs as [|[i j] pairs IH]; intros g Hwf Hp; simpl; [split; [done|lia]|].
  apply Forall_cons in Hp as [[[ni Hi] [nj Hj]] Hp]. cbn in Hi, Hj.
  assert (Hl : add_rel i T j g = Some (g_next g, link T g (i, j))).
  { unfold link, add_rel. simpl. by rewrite Hi, Hj. }
  assert (Hwf1 : graph_wf (link T g (i, j))) by eauto with neo.
  destruct (IH (link T g (i, j))) as [Hwf2 Hsz]; [done| |].
  { by rewrite link_nodes. }
  split; [done|]. rewrite Hsz. unfold link, add_rel. simpl. rewrite Hi, Hj. simpl.
  rewrite map_size_insert_None by (by apply rels_fresh). lia.
Qed.

Lemma matching_ids_nil g ls kvs :
  (forall i n, g_nodes g !! i = Some n -> node_ok ls kvs n = false) -> matching_ids g ls kvs = [].
Proof.
  intros H. destruct (matching_ids g ls kvs) as [|i l] eqn:E; [done|]. exfalso.
  assert (Hi : i ∈ matching_ids g ls kvs) by (rewrite E; apply list_elem_of_here).
  apply list_elem_of_filter in Hi as [Hok _]. unfold node_at_ok in Hok.
  destruct (g_nodes g !! i) eqn:En; [|done]. by rewrite (H _ _ En) in Hok.
Qed.

Lemma link_pairs_new T pairs g j r :
  g_rels (link_pairs T pairs g) !! j = Some r ->
  g_rels g !! j = Some r \/ (r_type r = T /\ (r_src r, r_dst r) ∈ pairs).
Proof.
  revert g. induction pairs as [|[a b] pairs IH]; intros g; simpl; [by left|].
  intros [Hj|[HT Hin]]%IH; [|right; set_solver].
  unfold link, add_rel in Hj. simpl in Hj.
  destruct (g_nodes g !! a), (g_nodes g !! b); simpl in Hj; try by left.
  rewrite lookup_insert in Hj. case_decide; simplify_eq/=; [right; set_solver|by left].
Qed.

Lemma link_pairs_mono T pairs g :
  graph_wf g ->
  Forall (fun ij => is_Some (g_nodes g !! ij.1) /\ is_Some (g_nodes g !! ij.2)) pairs ->
  g_rels g ⊆ g_rels (link_pairs T pairs g).
Proof.
  revert g. induction pairs as [|[a b] pairs IH]; intros g Hwf Hp; simpl; [done|].
  apply Forall_cons in Hp as [[[na Ha] [nb Hb]] Hp]. cbn in Ha, Hb.
  assert (Hl : add_rel a T b g = Some (g_next g, link T g (a, b))).
  { unfold link, add_rel. simpl. by rewrite Ha, Hb. }
  transitivity (g_rels (link T g (a, b))).
  - unfold link, add_rel. simpl. rewrite Ha, Hb. simpl.
    apply insert_subseteq. by apply rels_fresh.
  - apply IH; [eauto with neo|]. by rewrite link_nodes.
Qed.

End Exec.
