(* ===== verification/Queries.v ===== *)
(** * The query texts the helpers build

    [create_node], [create_relationship] and [delete_node] of
    [Neo4jConnection] (src/docs/sections/neo4j/code/neo4j_dev.py) format
    Cypher with f-strings: labels, the relationship type and the property
    keys are interpolated into the text, property values travel as
    parameters.  This file writes those strings out character for
    character and proves what the server parses them to: the intended
    query whenever the interpolated names are identifiers, a syntax error
    for [delete_node] with an empty dict, and a different query when a
    label carries query syntax. *)

From S2P Require Import Prelude Cypher Graph.

Module Queries.
Import Cypher Graph.

Definition nl : string := String "010"%char EmptyString.

(** Line 30: [f"CREATE (a:{label} $properties) RETURN a"]. *)
Definition create_node_query (label : string) : string :=
  "CREATE (a:" +:+ label +:+ " $properties) RETURN a".

(** Lines 34-38: a triple-quoted f-string; it opens with a newline and
    every line, the closing one included, is indented by eight spaces. *)
Definition create_relationship_query (rel_type start_label end_label : string) : string :=
  nl +:+ "        MATCH (a:" +:+ start_label +:+ " {name: $start_node})" +:+
  nl +:+ "        MATCH (b:" +:+ end_label +:+ " {name: $end_node})" +:+
  nl +:+ "        CREATE (a)-[:" +:+ rel_type +:+ "]->(b)" +:+
  nl +:+ "        ".

(** Python's [sep.join(xs)]. *)
Fixpoint join (sep : string) (xs : list string) : string :=
  match xs with
  | [] => ""
  | [x] => x
  | x :: xs' => x +:+ sep +:+ join sep xs'
  end.

(** Line 47, one element: [f"a.{key} = ${key}"]. *)
Definition delete_condition (key : string) : string :=
  "a." +:+ key +:+ " = $" +:+ key.

(** Line 47: [" AND ".join([... for key in properties.keys()])]. *)
Definition delete_conditions (properties : pdict) : string :=
  join " AND " (map delete_condition (map fst properties)).

(** Line 49: [f"MATCH (a:{label}) WHERE {conditions} DETACH DELETE a"]. *)
Definition delete_node_query (label : string) (properties : pdict) : string :=
  "MATCH (a:" +:+ label +:+ ") WHERE " +:+ delete_conditions properties +:+ " DETACH DELETE a".

(** The queries these texts are meant to be. *)
Definition create_node_ast (label : string) : query :=
  [CCreate (PNode (NodePat "a" [label] (PParam "properties"))); CReturn [RVar "a"]].

Definition create_relationship_ast (rel_type start_label end_label : string) : query :=
  [CMatch (PNode (NodePat "a" [start_label] (PFields [("name", EParam "start_node")]))) [];
   CMatch (PNode (NodePat "b" [end_label] (PFields [("name", EParam "end_node")]))) [];
   CCreate (PPath (NodePat "a" [] PNone) rel_type (NodePat "b" [] PNone))].

Definition delete_node_ast (label : string) (keys : list string) : query :=
  [CMatch (PNode (NodePat "a" [label] PNone)) (map (fun k => Cond "a" k (EParam k)) keys);
   CDetachDelete "a"].

(** The tokens of the [WHERE] conditions. *)
Fixpoint cond_tokens (keys : list string) : list token :=
  match keys with
  | [] => []
  | [k] => [TId "a"; TDot; TId k; TEq; TParam k]
  | k :: ks => [TId "a"; TDot; TId k; TEq; TParam k; TId "AND"] ++ cond_tokens ks
  end.

Example create_node_query_person :
  create_node_query "Person" = "CREATE (a:Person $properties) RETURN a".
Proof. reflexivity. Qed.

Lemma lex_create_node_query L :
  valid_ident L = true ->
  lex (create_node_query L) =
    Some [TId "CREATE"; TLParen; TId "a"; TColon; TId L; TParam "properties"; TRParen;
          TId "RETURN"; TId "a"].
Proof. intros HL. unfold lex, create_node_query. lex_pieces. reflexivity. Qed.

(** C16: the text of [create_node] parses to the intended [CREATE ...
    RETURN a] whenever the label is an identifier. *)
Theorem parse_create_node_query L :
  valid_ident L = true -> parse (create_node_query L) = Some (create_node_ast L).
Proof. intros HL. unfold parse. by rewrite lex_create_node_query. Qed.

Lemma lex_create_relationship_query T SL EL :
  valid_ident T = true -> valid_ident SL = true -> valid_ident EL = true ->
  lex (create_relationship_query T SL EL) =
    Some [TId "MATCH"; TLParen; TId "a"; TColon; TId SL; TLBrace; TId "name"; TColon;
          TParam "start_node"; TRBrace; TRParen;
          TId "MATCH"; TLParen; TId "b"; TColon; TId EL; TLBrace; TId "name"; TColon;
          TParam "end_node"; TRBrace; TRParen;
          TId "CREATE"; TLParen; TId "a"; TRParen; TDash; TLBrack; TColon; TId T; TRBrack;
          TDash; TGt; TLParen; TId "b"; TRParen].
Proof.
  intros HT HS HE. unfold lex, create_relationship_query, nl.
  lex_pieces. reflexivity.
Qed.

Lemma parse_create_node_query_witness :
  parse (create_node_query "Person") = Some (create_node_ast "Person").
Proof. apply parse_create_node_query. reflexivity. Defined.

(** C17: the text of [create_relationship] parses to two [MATCH] clauses on
    the [name] property and one [CREATE] of the typed edge. *)
Theorem parse_create_relationship_query T SL EL :
  valid_ident T = true -> valid_ident SL = true -> valid_ident EL = true ->
  parse (create_relationship_query T SL EL) = Some (create_relationship_ast T SL EL).
Proof. intros HT HS HE. unfold parse. by rewrite lex_create_relationship_query. Qed.


Lemma lex_delete_condition k :
  valid_ident k = true ->
  lex (delete_condition k) = Some [TId "a"; TDot; TId k; TEq; TParam k].
Proof.
  intros Hk. unfold lex, delete_condition. lex_pieces.
  rewrite lex_param_end by done. reflexivity.
Qed.

Lemma parse_create_relationship_query_witness :
  parse (create_relationship_query "FRIENDS_WITH" "Person" "Person") =
    Some (create_relationship_ast "FRIENDS_WITH" "Person" "Person").
Proof. apply parse_create_relationship_query; reflexivity. Defined.

Lemma lex_delete_conditions keys :
  keys <> [] -> Forall (fun k => valid_ident k = true) keys ->
  lex (join " AND " (map delete_condition keys)) = Some (cond_tokens keys).
Proof.
  intros Hne Hks. induction Hks as [|k ks Hk Hks IH]; [done|].
  destruct ks as [|k' ks]; [by apply lex_delete_condition|].
  set (J := join " AND " (map delete_condition (k' :: ks))) in *.
  change (join " AND " (map delete_condition (k :: k' :: ks))) with
    (delete_condition k +:+ String " " ("AND " +:+ J)).
  unfold lex. rewrite (lex_from_sep _ _ " "%char)
    by first [reflexivity | change (is_Some (lex (delete_condition k)));
                            by rewrite lex_delete_condition].
  fold (lex (delete_condition k)). rewrite lex_delete_condition by done.
  cbn [mbind option_bind]. rewrite <- (string_app_cons " "%char "AND "). lex_pieces.
  change (lex_from LStart J) with (lex J). rewrite IH by done. reflexivity.
Qed.

Lemma p_conds_cond_tokens keys t rest :
  keys <> [] -> is_kw "AND" t = false ->
  p_conds (cond_tokens keys ++ t :: rest) = Some (map (fun k => Cond "a" k (EParam k)) keys, t :: rest).
Proof.
  intros Hne Ht. induction keys as [|k ks IH]; [done|].
  destruct ks as [|k' ks].
  - simpl. destruct t; simpl in *; try done. by rewrite Ht.
  - change (cond_tokens (k :: k' :: ks) ++ t :: rest) with
      (TId "a" :: TDot :: TId k :: TEq :: TParam k :: TId "AND" ::
       (cond_tokens (k' :: ks) ++ t :: rest)).
    cbn [p_conds is_kw]. simpl String.eqb. cbv iota.
    rewrite IH by done. reflexivity.
Qed.

Lemma lex_delete_node_query L P :
  valid_ident L = true -> P <> [] -> Forall (fun kv => valid_ident kv.1 = true) P ->
  lex (delete_node_query L P) =
    Some ([TId "MATCH"; TLParen; TId "a"; TColon; TId L; TRParen; TId "WHERE"] ++
          cond_tokens (map fst P) ++ [TId "DETACH"; TId "DELETE"; TId "a"]).
Proof.
  intros HL HP HK.
  assert (Hks : Forall (fun k => valid_ident k = true) (map fst P)) by by apply Forall_fmap.
  assert (Hne : map fst P <> []) by (by destruct P).
  unfold lex, delete_node_query, delete_conditions.
  set (C := join " AND " (map delete_condition (map fst P))).
  lex_pieces. rewrite (lex_from_sep _ _ " "%char)
    by first [reflexivity | change (is_Some (lex C)); unfold C; by rewrite lex_delete_conditions].
  change (lex_from LStart C) with (lex C). unfold C. rewrite lex_delete_conditions by done.
  cbn [mbind option_bind]. lex_pieces. cbn [mbind option_bind]. reflexivity.
Qed.

Lemma parse_tokens_delete_node L keys :
  keys <> [] ->
  parse_tokens ([TId "MATCH"; TLParen; TId "a"; TColon; TId L; TRParen; TId "WHERE"] ++
                cond_tokens keys ++ [TId "DETACH"; TId "DELETE"; TId "a"]) =
    Some (delete_node_ast L keys).
Proof.
  intros Hne. unfold parse_tokens. simpl.
  rewrite p_conds_cond_tokens by done. reflexivity.
Qed.

(** C18: the text of [delete_node] with a non-empty dict of identifier keys
    parses to [MATCH (a:L) WHERE a.k = $k AND ... DETACH DELETE a], one
    condition per key, in the dict's order. *)
Theorem parse_delete_node_query L P :
  valid_ident L = true -> P <> [] -> Forall (fun kv => valid_ident kv.1 = true) P ->
  parse (delete_node_query L P) = Some (delete_node_ast L (map fst P)).
Proof.
  intros HL HP HK. unfold parse. rewrite lex_delete_node_query by done.
  cbn [mbind option_bind]. apply parse_tokens_delete_node. by destruct P.
Qed.

Lemma parse_delete_node_query_witness :
  parse (delete_node_query "Person" [("name", VStr "Alice"); ("age", VInt 30)]) =
    Some (delete_node_ast "Person" ["name"; "age"]).
Proof. apply (parse_delete_node_query "Person" [("name", VStr "Alice"); ("age", VInt 30)]); by_decide. Defined.

(** [delete_node] with an empty dict builds [... WHERE  DETACH DELETE a],
    which the server rejects as a syntax error. *)
Lemma parse_delete_node_empty L :
  valid_ident L = true -> parse (delete_node_query L []) = None.
Proof. intros HL. unfold parse, lex, delete_node_query. cbn. lex_pieces. reflexivity. Qed.

(** C12: the label is interpolated into the text, not bound as a
    parameter (spec §7, §9): a label that carries query syntax changes the
    query rather than raising.  For any identifiers [L1] and [L2],
    [create_node(L1 + ":" + L2, ...)] creates a node with the two labels
    [L1] and [L2], not one node labelled [L1:L2]. *)
Theorem create_node_label_injection L1 L2 :
  valid_ident L1 = true -> valid_ident L2 = true ->
  parse (create_node_query (L1 +:+ ":" +:+ L2)) =
    Some [CCreate (PNode (NodePat "a" [L1; L2] (PParam "properties"))); CReturn [RVar "a"]]
  /\ parse (create_node_query (L1 +:+ ":" +:+ L2)) <> Some (create_node_ast (L1 +:+ ":" +:+ L2)).
Proof.
  intros H1 H2.
  assert (Hp : parse (create_node_query (L1 +:+ ":" +:+ L2)) =
                 Some [CCreate (PNode (NodePat "a" [L1; L2] (PParam "properties"))); CReturn [RVar "a"]]).
  { unfold parse, lex, create_node_query. lex_pieces. reflexivity. }
  split; [done|]. rewrite Hp. unfold create_node_ast. congruence.
Qed.

Lemma create_node_label_injection_witness :
  parse (create_node_query ("Person" +:+ ":" +:+ "Admin")) =
    Some [CCreate (PNode (NodePat "a" ["Person"; "Admin"] (PParam "properties"))); CReturn [RVar "a"]]
  /\ parse (create_node_query ("Person" +:+ ":" +:+ "Admin")) <>
       Some (create_node_ast ("Person" +:+ ":" +:+ "Admin")).
Proof. apply create_node_label_injection; reflexivity. Defined.

End Queries.
