(* ===== verification/Driver.v ===== *)
(** * The driver objects the wrapper calls

    [neo4j_dev.py] only calls the neo4j driver (spec §6): [GraphDatabase.driver],
    [driver.session()], [session.run], [session.begin_transaction()],
    the transaction's context manager, [session.close()] and
    [driver.close()].  This file models those calls from the spec as
    operations on a world: the server (its store, whether it is reachable,
    the credentials it accepts) and a heap of driver, session and
    transaction objects, each with its open flag, plus a log of the calls
    that reach the server or release a resource.  Errors are Python
    exceptions, returned with the world as it is at the raise.

    The driver is lazy, as the real one: creating a driver or a session
    does not contact the server; the first [run] does, and that is where
    an unreachable server or rejected credentials surface.  A [run]
    returns a result object whose records are read once by
    [iterate_result] and discarded when the session or transaction that
    owns it ends. *)

From S2P Require Import Prelude Cypher Graph Exec.

Module Driver.
Import Graph Exec.

Inductive exn : Type :=
  | ConfigurationError          (* unsupported URI scheme *)
  | ServiceUnavailable          (* server unreachable *)
  | AuthError                   (* credentials rejected *)
  | ClientError (e : db_error)  (* the server rejected the query *)
  | SessionError                (* use of a closed session or transaction *)
  | DriverError                 (* use of a closed driver *)
  | AttributeError (attr : string)  (* attribute lookup on [None] *)
  | KeyError (k : string)       (* [record[k]] with no such field *)
  | ResultConsumedError         (* reading a result after its session or transaction ended *)
  | OverflowError               (* an integer parameter outside the signed 64-bit range *)
  | AppError (tag : string).    (* raised by the caller's own code *)

Record server : Type := Server {
  srv_graph : graph;
  srv_up : bool;
  srv_auth : string * string }.

Record driver_obj : Type := DriverObj {
  drv_uri : string;
  drv_auth : string * string;
  drv_open : bool }.

(** [ses_pending]: the last result has not been consumed yet (results are
    lazy); closing the session then talks to the server. *)
Record session_obj : Type := SessionObj {
  ses_driver : nat;
  ses_open : bool;
  ses_pending : bool }.

#[export] Instance driver_obj_eq_dec : EqDecision driver_obj.
Proof. solve_decision. Defined.

#[export] Instance session_obj_eq_dec : EqDecision session_obj.
Proof. solve_decision. Defined.

Record tx_obj : Type := TxObj {
  tx_session : nat;
  tx_open : bool;
  tx_graph : graph }.

(** A result of [run]: the session or transaction it belongs to, its
    records, and where its iteration stands.  A live result can still be
    read; an exhausted one has been read to the end (reading it again gives
    nothing); a consumed one was discarded when its session or transaction
    ended, and reading it raises. *)
Inductive owner : Type :=
  | OSession (s : nat)
  | OTx (t : nat).

Inductive res_state : Type := RLive | RExhausted | RConsumed.

Record result_obj : Type := ResultObj {
  res_owner : owner;
  res_records : list record;
  res_state_of : res_state }.

#[export] Instance owner_eq_dec : EqDecision owner.
Proof. solve_decision. Defined.

#[export] Instance res_state_eq_dec : EqDecision res_state.
Proof. solve_decision. Defined.

Inductive event : Type :=
  | EvDriver (d : nat)
  | EvSession (s d : nat)
  | EvRun (s : nat) (q : string)
  | EvBegin (t s : nat)
  | EvTxRun (t : nat) (q : string)
  | EvCommit (t : nat)
  | EvRollback (t : nat)
  | EvSessionClose (s : nat)
  | EvDriverClose (d : nat).

#[export] Instance event_eq_dec : EqDecision event.
Proof. solve_decision. Defined.

Record world : Type := World {
  w_server : server;
  w_drivers : gmap nat driver_obj;
  w_sessions : gmap nat session_obj;
  w_txs : gmap nat tx_obj;
  w_results : gmap nat result_obj;
  w_next : nat;
  w_log : list event }.

Abbreviation M := (stM world exn).

(** The server's store in a world. *)
Notation "'store' w" := (srv_graph (w_server w)) (at level 10, w at level 9) : neo_scope.
Open Scope neo_scope.

(** A server holding [g], reachable or not, accepting [auth], before any
    object of the client exists. *)
Definition boot_world (g : graph) (up : bool) (auth : string * string) : world :=
  {| w_server := Server g up auth; w_drivers := ∅; w_sessions := ∅; w_txs := ∅; w_results := ∅;
     w_next := 0; w_log := [] |}.

(** ** Updating the world *)

Definition log_event (ev : event) (w : world) : world :=
  {| w_server := w_server w; w_drivers := w_drivers w; w_sessions := w_sessions w;
     w_txs := w_txs w; w_results := w_results w; w_next := w_next w; w_log := w_log w ++ [ev] |}.

Definition set_driver (d : nat) (dv : driver_obj) (w : world) : world :=
  {| w_server := w_server w; w_drivers := <[d := dv]> (w_drivers w); w_sessions := w_sessions w;
     w_txs := w_txs w; w_results := w_results w; w_next := w_next w; w_log := w_log w |}.

Definition set_session (s : nat) (so : session_obj) (w : world) : world :=
  {| w_server := w_server w; w_drivers := w_drivers w; w_sessions := <[s := so]> (w_sessions w);
     w_txs := w_txs w; w_results := w_results w; w_next := w_next w; w_log := w_log w |}.

Definition set_tx (t : nat) (tx : tx_obj) (w : world) : world :=
  {| w_server := w_server w; w_drivers := w_drivers w; w_sessions := w_sessions w;
     w_txs := <[t := tx]> (w_txs w); w_results := w_results w; w_next := w_next w; w_log := w_log w |}.

Definition set_graph (g : graph) (w : world) : world :=
  {| w_server := Server g (srv_up (w_server w)) (srv_auth (w_server w));
     w_drivers := w_drivers w; w_sessions := w_sessions w;
     w_txs := w_txs w; w_results := w_results w; w_next := w_next w; w_log := w_log w |}.

Definition bump (w : world) : world :=
  {| w_server := w_server w; w_drivers := w_drivers w; w_sessions := w_sessions w;
     w_txs := w_txs w; w_results := w_results w; w_next := S (w_next w); w_log := w_log w |}.

Definition set_result (r : nat) (ro : result_obj) (w : world) : world :=
  {| w_server := w_server w; w_drivers := w_drivers w; w_sessions := w_sessions w;
     w_txs := w_txs w; w_results := <[r := ro]> (w_results w); w_next := w_next w; w_log := w_log w |}.

(** The end of a session or transaction discards its live results. *)
Definition discard (o : owner) (ro : result_obj) : result_obj :=
  if decide (res_owner ro = o /\ res_state_of ro = RLive)
  then ResultObj (res_owner ro) (res_records ro) RConsumed else ro.

Definition discard_results (o : owner) (w : world) : world :=
  {| w_server := w_server w; w_drivers := w_drivers w; w_sessions := w_sessions w;
     w_txs := w_txs w; w_results := discard o <$> w_results w; w_next := w_next w; w_log := w_log w |}.

Definition st_modify (f : world -> world) : M unit := fun w => (Ok tt, f w).

(** A fresh object id. *)
Definition alloc : M nat := fun w => (Ok (w_next w), bump w).

(** ** Looking objects up *)

Definition open_driver (d : nat) : M driver_obj :=
  fun w => match w_drivers w !! d with
           | Some dv => if drv_open dv then (Ok dv, w) else (Err DriverError, w)
           | None => (Err DriverError, w)
           end.

Definition open_session (s : nat) : M session_obj :=
  fun w => match w_sessions w !! s with
           | Some so => if ses_open so then (Ok so, w) else (Err SessionError, w)
           | None => (Err SessionError, w)
           end.

Definition open_tx (t : nat) : M tx_obj :=
  fun w => match w_txs w !! t with
           | Some tx => if tx_open tx then (Ok tx, w) else (Err SessionError, w)
           | None => (Err SessionError, w)
           end.

(** The first contact with the server: reachable, and the credentials of
    the driver accepted. *)
Definition connect (dv : driver_obj) : M unit :=
  fun w => if srv_up (w_server w) then
             if decide (drv_auth dv = srv_auth (w_server w)) then (Ok tt, w)
             else (Err AuthError, w)
           else (Err ServiceUnavailable, w).

(** ** The driver's API *)

Definition supported_scheme (uri : string) : bool :=
  String.prefix "bolt://" uri || String.prefix "bolt+s://" uri ||
  String.prefix "bolt+ssc://" uri || String.prefix "neo4j://" uri ||
  String.prefix "neo4j+s://" uri || String.prefix "neo4j+ssc://" uri.

(** [GraphDatabase.driver(uri, auth=(user, password))]. *)
Definition graphdb_driver (uri : string) (auth : string * string) : M nat :=
  if supported_scheme uri then
    d ← alloc;
    st_modify (set_driver d (DriverObj uri auth true));;
    st_modify (log_event (EvDriver d));;
    mret d
  else st_raise ConfigurationError.

(** [driver.session()]. *)
Definition driver_session (d : nat) : M nat :=
  _ ← open_driver d;
  s ← alloc;
  st_modify (set_session s (SessionObj d true false));;
  st_modify (log_event (EvSession s d));;
  mret s.

(** ** Packing the parameters

    The driver encodes the parameter dict in PackStream, where an integer
    is a signed 64-bit value; Python's [int] is unbounded, and packing one
    outside [-2^63, 2^63 - 1] raises [OverflowError] while the [RUN]
    message is built, after the connection is acquired and before anything
    is sent.  Other scalars and string keys always pack. *)
Definition value_packable (v : value) : bool :=
  match v with
  | VInt z => (- 2 ^ 63 <=? z)%Z && (z <? 2 ^ 63)%Z
  | VNull | VBool _ | VStr _ => true
  end.

Definition dict_packable (d : pdict) : bool := forallb (fun kv => value_packable kv.2) d.

Definition packable (ps : params) : bool :=
  forallb (fun kv => match kv.2 with
                     | PScalar v => value_packable v
                     | PMap d => dict_packable d
                     end) ps.

(** [session.run(query, parameters)]: an auto-commit transaction; the
    store changes only when the query succeeds.  It returns a fresh result
    object holding the records. *)
Definition session_run (s : nat) (q : string) (ps : option params) : M nat :=
  so ← open_session s;
  dv ← open_driver (ses_driver so);
  connect dv;;
  (if packable (default [] ps) then mret tt else st_raise OverflowError);;
  st_modify (log_event (EvRun s q));;
  w ← st_get;
  match run_cypher q (default [] ps) (srv_graph (w_server w)) with
  | Ok (g', recs) =>
      st_modify (set_graph g');;
      st_modify (set_session s (SessionObj (ses_driver so) true true));;
      r ← alloc;
      st_modify (set_result r (ResultObj (OSession s) recs RLive));;
      mret r
  | Err e => st_raise (ClientError e)
  end.

(** [session.begin_transaction()]: an explicit transaction working on a
    copy of the store until it commits. *)
Definition session_begin_transaction (s : nat) : M nat :=
  so ← open_session s;
  dv ← open_driver (ses_driver so);
  connect dv;;
  t ← alloc;
  w ← st_get;
  st_modify (set_tx t (TxObj s true (srv_graph (w_server w))));;
  st_modify (log_event (EvBegin t s));;
  mret t.

(** [tx.run(query, parameters)]: a result object bound to the transaction. *)
Definition tx_run (t : nat) (q : string) (ps : option params) : M nat :=
  tx ← open_tx t;
  (if packable (default [] ps) then mret tt else st_raise OverflowError);;
  st_modify (log_event (EvTxRun t q));;
  match run_cypher q (default [] ps) (tx_graph tx) with
  | Ok (g', recs) =>
      st_modify (set_tx t (TxObj (tx_session tx) true g'));;
      r ← alloc;
      st_modify (set_result r (ResultObj (OTx t) recs RLive));;
      mret r
  | Err e => st_raise (ClientError e)
  end.

(** Iterating a result ([for record in result], [list(result)]): the
    records of a live result, once; nothing from an exhausted one; a
    consumed result raises. *)
Definition iterate_result (r : nat) : M (list record) :=
  fun w => match w_results w !! r with
           | Some ro =>
               match res_state_of ro with
               | RLive => (Ok (res_records ro),
                           set_result r (ResultObj (res_owner ro) [] RExhausted) w)
               | RExhausted => (Ok [], w)
               | RConsumed => (Err ResultConsumedError, w)
               end
           | None => (Err ResultConsumedError, w)
           end.

Definition tx_commit (t : nat) : M unit :=
  tx ← open_tx t;
  st_modify (set_graph (tx_graph tx));;
  st_modify (set_tx t (TxObj (tx_session tx) false (tx_graph tx)));;
  st_modify (discard_results (OTx t));;
  st_modify (log_event (EvCommit t)).

Definition tx_rollback (t : nat) : M unit :=
  tx ← open_tx t;
  st_modify (set_tx t (TxObj (tx_session tx) false (tx_graph tx)));;
  st_modify (discard_results (OTx t));;
  st_modify (log_event (EvRollback t)).

(** [with session.begin_transaction() as tx: body]: commit when the body
    returns, roll back when it raises; the body's exception propagates. *)
Definition with_tx {A} (t : nat) (body : M A) : M A :=
  fun w => match body w with
           | (Ok a, w1) => match tx_commit t w1 with
                           | (Ok _, w2) => (Ok a, w2)
                           | (Err e, w2) => (Err e, w2)
                           end
           | (Err e, w1) => match tx_rollback t w1 with
                            | (Ok _, w2) => (Err e, w2)
                            | (Err e', w2) => (Err e', w2)
                            end
           end.

(** [session.close()]: idempotent; it consumes a pending result first,
    which needs the server: with the server gone it raises after marking
    the session closed.  Spec §7 lets every connectivity error surface
    unchanged; whether a real driver version swallows this one instead is
    outside the spec, and only the theorem on [__exit__]'s skipped
    [driver.close()] depends on the choice made here. *)
Definition session_close (s : nat) : M unit :=
  fun w => match w_sessions w !! s with
           | Some so =>
               if ses_open so then
                 let w' := log_event (EvSessionClose s) (discard_results (OSession s)
                             (set_session s (SessionObj (ses_driver so) false false) w)) in
                 if ses_pending so && negb (srv_up (w_server w)) then (Err ServiceUnavailable, w')
                 else (Ok tt, w')
               else (Ok tt, w)
           | None => (Ok tt, w)
           end.

(** [driver.close()]: idempotent. *)
Definition driver_close (d : nat) : M unit :=
  fun w => match w_drivers w !! d with
           | Some dv =>
               if drv_open dv then
                 (Ok tt, log_event (EvDriverClose d) (set_driver d (DriverObj (drv_uri dv) (drv_auth dv) false) w))
               else (Ok tt, w)
           | None => (Ok tt, w)
           end.

(** The network goes away (an event of the environment, not a call). *)
Definition network_down : M unit :=
  st_modify (fun w => {| w_server := Server (srv_graph (w_server w)) false (srv_auth (w_server w));
                         w_drivers := w_drivers w; w_sessions := w_sessions w;
                         w_txs := w_txs w; w_results := w_results w; w_next := w_next w; w_log := w_log w |}).

(** ** The packing range *)

Lemma value_packable_int z : value_packable (VInt z) = true <-> (- 2 ^ 63 <= z < 2 ^ 63)%Z.
Proof. simpl. by rewrite andb_true_iff, Z.leb_le, Z.ltb_lt. Qed.

Lemma dict_packable_Forall P :
  dict_packable P = true <-> Forall (fun kv => value_packable kv.2 = true) P.
Proof.
  unfold dict_packable. rewrite forallb_forall, Forall_forall.
  split; intros H kv Hkv; apply H, list_elem_of_In, Hkv.
Qed.

Lemma dict_packable_overflow P k z :
  (k, VInt z) ∈ P -> ~ (- 2 ^ 63 <= z < 2 ^ 63)%Z -> dict_packable P = false.
Proof.
  intros Hin Hz. apply not_true_is_false. rewrite dict_packable_Forall, Forall_forall.
  intros H. apply Hz, value_packable_int, (H _ Hin).
Qed.

(** Exactly the dicts holding an integer outside the range fail to pack. *)
Lemma dict_packable_false P :
  dict_packable P = false <-> exists k z, (k, VInt z) ∈ P /\ ~ (- 2 ^ 63 <= z < 2 ^ 63)%Z.
Proof.
  split.
  - intros H. apply not_true_iff_false in H. rewrite dict_packable_Forall in H.
    apply not_Forall_Exists in H; [|intros [k v]; apply _].
    apply Exists_exists in H as ([k v] & Hin & Hv). simpl in Hv.
    destruct v as [| |z|]; try done. exists k, z. by rewrite <- value_packable_int.
  - intros (k & z & Hin & Hz). by apply (dict_packable_overflow _ k z).
Qed.

End Driver.
