(* ===== verification/Connection.v ===== *)
(** * The class [Neo4jConnection]

    src/docs/sections/neo4j/code/neo4j_dev.py, lines 7-50, method by
    method.  The object holds a driver and, once entered, a session
    ([_driver], [_session]); each method calls the driver operations of
    [Driver] in the order the source does, in the state-and-exception
    monad over the world.  The [with] statement of Python is
    [with_connection]: [__init__], [__enter__], the body, and [__exit__] on
    every exit path, an exception of [__exit__] replacing the body's.

    The theorems: what each helper does on a connection inside its block
    ([ready]); section [Preserve] (any world property the driver calls
    keep, the methods keep), instantiated by section [Lifecycle] (the
    session and driver stay open during the body); then the release of
    both objects when the block ends, the refinement of a block of helper
    calls by [spec_calls], and the blocks whose first call meets an
    unreachable server or rejected credentials.  [fixture_world] and [fixture_entered] are the concrete
    worlds the witnesses use. *)

From S2P Require Import Prelude Cypher Graph Exec Queries Driver.

Module Connection.
Import Cypher Graph Exec Queries Driver.

Record Neo4jConnection : Type := Neo4jConnectionObj {
  _driver : nat;
  _session : option nat }.

(** Lines 9-11. *)
Definition __init__ (uri user password : string) : M Neo4jConnection :=
  d ← graphdb_driver uri (user, password);
  mret {| _driver := d; _session := None |}.

(** Lines 13-15: opens the session and returns [self]. *)
Definition __enter__ (self : Neo4jConnection) : M Neo4jConnection :=
  s ← driver_session (_driver self);
  mret {| _driver := _driver self; _session := Some s |}.

(** [self._session.m(...)] with [_session = None] raises [AttributeError]. *)
Definition session_attr (self : Neo4jConnection) (attr : string) : M nat :=
  match _session self with
  | Some s => mret s
  | None => st_raise (AttributeError attr)
  end.

(** Lines 17-19: the session is closed first, then the driver; if closing
    the session raises, the driver is not closed. *)
Definition __exit__ (self : Neo4jConnection) : M unit :=
  s ← session_attr self "close";
  session_close s;;
  driver_close (_driver self).

(** Lines 21-22: the driver's result object is returned as is (its id in
    the world). *)
Definition run_query (self : Neo4jConnection) (query : string) (parameters : option params)
    : M nat :=
  s ← session_attr self "run";
  session_run s query parameters.

(** [record["name"]]. *)
Definition record_name (r : record) : result exn rvalue :=
  of_option (KeyError "name") (assoc "name" r).

(** Lines 24-27: the list is built inside the transaction's [with], so the
    result is consumed before the transaction commits. *)
Definition show_databases (self : Neo4jConnection) : M (list rvalue) :=
  s ← session_attr self "begin_transaction";
  tx ← session_begin_transaction s;
  with_tx tx (result ← tx_run tx "SHOW DATABASES" None;
              records ← iterate_result result;
              st_lift (mapM_res record_name records)).

(** The parameter dict of line 31. *)
Definition create_node_params (properties : pdict) : params :=
  [("properties", PMap properties)].

(** Lines 29-31. *)
Definition create_node (self : Neo4jConnection) (label : string) (properties : pdict)
    : M nat :=
  run_query self (create_node_query label) (Some (create_node_params properties)).

(** The parameter dict of line 39. *)
Definition create_relationship_params (start_node end_node : value) : params :=
  [("start_node", PScalar start_node); ("end_node", PScalar end_node)].

(** Lines 33-39. *)
Definition create_relationship (self : Neo4jConnection) (start_node : value) (rel_type : string)
    (end_node : value) (start_label end_label : string) : M nat :=
  run_query self (create_relationship_query rel_type start_label end_label)
            (Some (create_relationship_params start_node end_node)).

(** Lines 41-50: the dict itself is the parameter map. *)
Definition delete_node (self : Neo4jConnection) (label : string) (properties : pdict)
    : M nat :=
  run_query self (delete_node_query label properties) (Some (dict_params properties)).

(** [with Neo4jConnection(uri, user, password) as conn: body]. *)
Definition with_connection {A} (uri user password : string) (body : Neo4jConnection -> M A) : M A :=
  mgr ← __init__ uri user password;
  conn ← __enter__ mgr;
  st_finally (body conn) (__exit__ conn).

(** ** Bodies of the [with] block

    Spec P2 speaks of "any sequence of helper calls, including ones that
    raise": a body is a list of calls of the wrapper's methods, of the
    caller's own code raising, or of the network going away. *)
Inductive call : Type :=
  | CallRunQuery (query : string) (parameters : option params)
  | CallShowDatabases
  | CallCreateNode (label : string) (properties : pdict)
  | CallCreateRelationship (start_node : value) (rel_type : string) (end_node : value)
      (start_label end_label : string)
  | CallDeleteNode (label : string) (properties : pdict)
  | CallRaise (tag : string)
  | CallNetworkDown.

#[export] Instance call_eq_dec : EqDecision call.
Proof. solve_decision. Defined.

Definition do_call (conn : Neo4jConnection) (c : call) : M unit :=
  match c with
  | CallRunQuery q ps => run_query conn q ps;; mret tt
  | CallShowDatabases => show_databases conn;; mret tt
  | CallCreateNode L P => create_node conn L P;; mret tt
  | CallCreateRelationship sn t en sl el => create_relationship conn sn t en sl el;; mret tt
  | CallDeleteNode L P => delete_node conn L P;; mret tt
  | CallRaise tag => st_raise (AppError tag)
  | CallNetworkDown => network_down
  end.

Fixpoint do_calls (conn : Neo4jConnection) (cs : list call) : M unit :=
  match cs with
  | [] => mret tt
  | c :: cs' => do_call conn c;; do_calls conn cs'
  end.

(** ** The contract of a body, on the store alone

    What spec §4.1 promises of each helper, as an update of the store:
    [create_node] adds a node, [delete_node] is [delete_matching],
    [create_relationship] is [link_pairs] over the matching pairs,
    [show_databases] reads, [run_query] is the server's evaluation, and
    the caller's exception stops the body.  Before any of them, an integer
    the driver cannot pack raises [OverflowError]; a new node that clashes
    with a stored one under a uniqueness constraint raises the server's
    [ConstraintValidationFailed]. *)
Definition spec_call (c : call) (g : graph) : result exn graph :=
  match c with
  | CallRunQuery q ps =>
      if packable (default [] ps) then
        match run_cypher q (default [] ps) g with
        | Ok (g', _) => Ok g'
        | Err e => Err (ClientError e)
        end
      else Err OverflowError
  | CallShowDatabases => Ok g
  | CallCreateNode L P =>
      if dict_packable P then
        match new_clash g (Node [L] (props_of_dict P)) with
        | None => Ok (add_node [L] (props_of_dict P) g).2
        | Some (L', k) => Err (ClientError (ConstraintValidationFailed L' k))
        end
      else Err OverflowError
  | CallCreateRelationship sv T ev SL EL =>
      if value_packable sv && value_packable ev then
        Ok (link_pairs T (list_prod (matching_ids g [SL] [("name", sv)])
                                    (matching_ids g [EL] [("name", ev)])) g)
      else Err OverflowError
  | CallDeleteNode L P =>
      if dict_packable P then Ok (delete_matching L P g) else Err OverflowError
  | CallRaise tag => Err (AppError tag)
  | CallNetworkDown => Ok g
  end.

Fixpoint spec_calls (cs : list call) (g : graph) : result exn unit * graph :=
  match cs with
  | [] => (Ok tt, g)
  | c :: cs' =>
      match spec_call c g with
      | Ok g' => spec_calls cs' g'
      | Err e => (Err e, g)
      end
  end.

(** The calls the contract covers: interpolated names are identifiers, a
    [delete_node] dict is non-empty with distinct keys, and the network
    stays up. *)
Definition call_ok (c : call) : Prop :=
  match c with
  | CallCreateNode L _ => valid_ident L = true
  | CallCreateRelationship _ T _ SL EL =>
      valid_ident T = true /\ valid_ident SL = true /\ valid_ident EL = true
  | CallDeleteNode L P =>
      valid_ident L = true /\ P <> [] /\ Forall (fun kv => valid_ident kv.1 = true) P /\
      NoDup (map fst P)
  | CallNetworkDown => False
  | _ => True
  end.

(** The calls that reach the server: every helper does, before anything
    else it does on the server. *)
Definition contacts_server (c : call) : bool :=
  match c with
  | CallRaise _ | CallNetworkDown => false
  | _ => true
  end.

#[export] Instance call_ok_dec c : Decision (call_ok c).
Proof. destruct c; simpl; apply _. Defined.

(** The invariant of the body: the session [s] of driver [d] and the
    driver stay open, a pending result implies a reachable server, and the
    log only grows from [L0] by events that release neither. *)
Definition releases (d s : nat) (ev : event) : Prop :=
  ev = EvSessionClose s \/ ev = EvDriverClose d.

Record live (d s : nat) (L0 : list event) (w : world) : Prop := {
  live_session : exists p, w_sessions w !! s = Some (SessionObj d true p) /\
                           (p = true -> srv_up (w_server w) = true);
  live_driver : exists dv, w_drivers w !! d = Some dv /\ drv_open dv = true;
  live_log : exists mid, w_log w = L0 ++ mid /\ Forall (fun ev => ~ releases d s ev) mid }.

#[export] Instance releases_dec d s ev : Decision (releases d s ev).
Proof. unfold releases. apply _. Defined.

#[export] Instance live_dec d s L0 w : Decision (live d s L0 w).
Proof.
  assert (Hs : Decision (exists p, w_sessions w !! s = Some (SessionObj d true p) /\
                                   (p = true -> srv_up (w_server w) = true))).
  { destruct (w_sessions w !! s) as [[d' o p]|].
    - destruct (decide (d' = d /\ o = true /\ (p = true -> srv_up (w_server w) = true)))
        as [(-> & -> & H)|H].
      + left. eauto.
      + right. intros (p' & E & H'). simplify_eq; auto.
    - right. intros (p & E & _). done. }
  assert (Hd : Decision (exists dv, w_drivers w !! d = Some dv /\ drv_open dv = true)).
  { destruct (w_drivers w !! d) as [dv|].
    - destruct (decide (drv_open dv = true)); [left; eauto|right].
      intros (dv' & E & ?). simplify_eq; auto.
    - right. intros (dv & E & _). done. }
  assert (Hl : Decision (exists mid, w_log w = L0 ++ mid /\ Forall (fun ev => ~ releases d s ev) mid)).
  { destruct (decide (L0 `prefix_of` w_log w)) as [Hp|Hp].
    - destruct (decide (Forall (fun ev => ~ releases d s ev) (drop (length L0) (w_log w)))) as [F|F].
      + left. destruct Hp as [mid Hmid]. exists mid. rewrite Hmid, drop_app_length in *. done.
      + right. intros (mid & E & F'). apply F. by rewrite E, drop_app_length.
    - right. intros (mid & E & _). apply Hp. by exists mid. }
  destruct Hs as [Hs|Hs]; [|right; intros [? ? ?]; contradiction].
  destruct Hd as [Hd|Hd]; [|right; intros [? ? ?]; contradiction].
  destruct Hl as [Hl|Hl]; [left; by split|right; intros [? ? ?]; contradiction].
Defined.

(** A computation preserves a property of the world, on every exit path. *)
Definition preserves (I : world -> Prop) {A} (c : M A) : Prop :=
  forall w, I w -> I (c w).2.

(** Transaction [t] exists and is open. *)
Definition tx_is_open (t : nat) (w : world) : Prop :=
  exists tx, w_txs w !! t = Some tx /\ tx_open tx = true.

(** ** A connection inside its [with] block, with the server reachable *)

Record ready (self : Neo4jConnection) (s : nat) (w : world) : Prop := {
  ready_session : _session self = Some s;
  ready_session_open : w_sessions w !! s = Some (SessionObj (_driver self) true true) \/
                       w_sessions w !! s = Some (SessionObj (_driver self) true false);
  ready_driver : exists dv, w_drivers w !! _driver self = Some dv /\ drv_open dv = true /\
                            drv_auth dv = srv_auth (w_server w);
  ready_up : srv_up (w_server w) = true }.

#[export] Instance ready_dec self s w : Decision (ready self s w).
Proof.
  destruct (decide (_session self = Some s)) as [H1|H1]; [|right; intros [? ? ? ?]; contradiction].
  destruct (decide (w_sessions w !! s = Some (SessionObj (_driver self) true true) \/
                    w_sessions w !! s = Some (SessionObj (_driver self) true false))) as [H2|H2];
    [|right; intros [? ? ? ?]; contradiction].
  destruct (decide (srv_up (w_server w) = true)) as [H5|H5]; [|right; intros [? ? ? ?]; contradiction].
  destruct (w_drivers w !! _driver self) as [dv|] eqn:E;
    [|right; intros [_ _ [dv' [Hd _]] _]; congruence].
  destruct (decide (drv_open dv = true /\ drv_auth dv = srv_auth (w_server w))) as [[H3 H4]|H3].
  - left. split; eauto.
  - right. intros [_ _ [dv' (Hd & Ho & Ha)] _]. rewrite E in Hd. injection Hd as <-. auto.
Defined.

(** The world after a successful [session.run] on session [s]. *)
Definition after_run (self : Neo4jConnection) (s : nat) (q : string) (g' : graph)
    (recs : list record) (w : world) : world :=
  set_result (w_next w) (ResultObj (OSession s) recs RLive)
    (bump (set_session s (SessionObj (_driver self) true true) (set_graph g' (log_event (EvRun s q) w)))).

(** The world inside a [with] block right after [__init__] and
    [__enter__], and the connection object they return. *)
Definition entered_world (uri user password : string) (w : world) : world :=
  log_event (EvSession (S (w_next w)) (w_next w))
    (set_session (S (w_next w)) (SessionObj (w_next w) true false)
      (bump (log_event (EvDriver (w_next w))
              (set_driver (w_next w) (DriverObj uri (user, password) true) (bump w))))).

Definition entered_conn (w : world) : Neo4jConnection :=
  {| _driver := w_next w; _session := Some (S (w_next w)) |}.

(** ** Concrete worlds the theorems are instantiated at

    A server holding one [Person] node named Bob, and the connection of a
    [with] block entered against it. *)
Definition fixture_uri : string := "bolt://localhost:7687".

Definition fixture_store : graph :=
  (add_node ["Person"] {["name" := VStr "Bob"]} (empty_graph ["neo4j"; "system"])).2.

Definition fixture_world : world := boot_world fixture_store true ("neo4j", "secret").

Definition fixture_conn : Neo4jConnection := {| _driver := 0; _session := Some 1 |}.

Definition fixture_entered : world :=
  ((__init__ fixture_uri "neo4j" "secret" ≫= __enter__) fixture_world).2.

(** The same server with a uniqueness constraint on [(Person, name)]. *)
Definition fixture_unique_store : graph :=
  {| g_nodes := g_nodes fixture_store; g_rels := g_rels fixture_store;
     g_next := g_next fixture_store; g_dbs := g_dbs fixture_store;
     g_unique := [("Person", "name")] |}.

Definition fixture_unique_entered : world :=
  ((__init__ fixture_uri "neo4j" "secret" ≫= __enter__)
     (boot_world fixture_unique_store true ("neo4j", "secret"))).2.

Definition fixture_calls : list call :=
  [CallCreateNode "Person" [("name", VStr "Ann")]; CallShowDatabases;
   CallCreateRelationship (VStr "Ann") "KNOWS" (VStr "Bob") "Person" "Person";
   CallRaise "oops"; CallDeleteNode "Person" [("name", VStr "Ann")]].

Lemma packable_dict_params P : packable (dict_params P) = dict_packable P.
Proof. induction P as [|[k v] P IH]; [done|]. simpl. by rewrite <- IH. Qed.

(** The workhorse: [run_query] on a ready connection runs the query on the
    server's store, atomically. *)
Lemma run_query_ready self s q ps w :
  ready self s w -> packable (default [] ps) = true ->
  run_query self q ps w =
    match run_cypher q (default [] ps) (store w) with
    | Ok (g', recs) => (Ok (w_next w), after_run self s q g' recs w)
    | Err e => (Err (ClientError e), log_event (EvRun s q) w)
    end.
Proof.
  intros [Hs Hso [dv (Hd & Hdo & Ha)] Hup] Hp.
  unfold run_query, session_attr, session_run, open_session, open_driver, connect, alloc,
    st_modify.
  rewrite Hs. st_unfold.
  destruct Hso as [Hso|Hso]; rewrite Hso; cbn; rewrite Hd, Hdo; cbn; rewrite Hup, decide_True by done;
    cbn; rewrite Hp; cbn; destruct (run_cypher q (default [] ps) (store w)) as [[g' recs]|e]; done.
Qed.

(** A parameter the driver cannot pack stops [run_query] on the client:
    [OverflowError], and the world as it was, the server never reached. *)
Lemma run_query_overflow self s q ps w :
  ready self s w -> packable (default [] ps) = false ->
  run_query self q ps w = (Err OverflowError, w).
Proof.
  intros [Hs Hso [dv (Hd & Hdo & Ha)] Hup] Hp.
  unfold run_query, session_attr, session_run, open_session, open_driver, connect.
  rewrite Hs. st_unfold.
  destruct Hso as [Hso|Hso]; rewrite Hso; cbn; rewrite Hd, Hdo; cbn; rewrite Hup, decide_True by done;
    cbn; by rewrite Hp.
Qed.

Lemma ready_after_run self s q g' recs w :
  ready self s w -> ready self s (after_run self s q g' recs w).
Proof.
  intros [Hs Hso [dv (Hd & Hdo & Ha)] Hup]. split; simpl; auto.
  - left. by rewrite lookup_insert_eq.
  - exists dv. auto.
Qed.

Lemma ready_log self s ev w : ready self s w -> ready self s (log_event ev w).
Proof. intros [Hs Hso Hd Hup]. by split. Qed.

#[export] Hint Resolve ready_after_run ready_log : neo.

Lemma after_run_graph self s q g' recs w : store (after_run self s q g' recs w) = g'.
Proof. reflexivity. Qed.

Lemma after_run_result self s q g' recs w :
  w_results (after_run self s q g' recs w) !! w_next w = Some (ResultObj (OSession s) recs RLive).
Proof. apply lookup_insert_eq. Qed.

Lemma log_event_graph ev w : srv_graph (w_server (log_event ev w)) = store w.
Proof. reflexivity. Qed.

#[export] Hint Rewrite after_run_graph log_event_graph : neo_simpl.

(** ** What the helpers do on a ready connection *)

(** [create_node] with an identifier label adds one node under the next
    id and returns it. *)
Lemma create_node_ready self s L P w :
  ready self s w -> valid_ident L = true -> dict_packable P = true ->
  create_node self L P w =
    match new_clash (store w) (Node [L] (props_of_dict P)) with
    | None =>
        (Ok (w_next w),
         after_run self s (create_node_query L) (add_node [L] (props_of_dict P) (store w)).2
           [[("a", RNode (g_next (store w)) (Node [L] (props_of_dict P)))]] w)
    | Some (L', k) =>
        (Err (ClientError (ConstraintValidationFailed L' k)), log_event (EvRun s (create_node_query L)) w)
    end.
Proof.
  intros Hr HL Hp. unfold create_node, create_node_params.
  rewrite (run_query_ready _ _ _ _ _ Hr) by (simpl; by rewrite Hp).
  unfold run_cypher, parse. rewrite lex_create_node_query by done. simpl.
  unfold create_node_ast. rewrite exec_create_node. simpl.
  by destruct (new_clash _ _) as [[L' k]|].
Qed.

(** C29: the label is query text (spec §7, §9): a label that closes the
    node pattern and opens a second [CREATE] plants a node of its own.
    [create_node(L + ") CREATE (b:" + M, properties)] raises nothing,
    stores a node labelled [L] with no property and then the dict's values
    under a node labelled [M], and returns normally. *)
Theorem create_node_label_plants_node self s L M P w :
  ready self s w -> valid_ident L = true -> valid_ident M = true -> dict_packable P = true ->
  new_clash (store w) (Node [L] ∅) = None ->
  new_clash (add_node [L] ∅ (store w)).2 (Node [M] (props_of_dict P)) = None ->
  let r := create_node self (L +:+ ") CREATE (b:" +:+ M) P w in
  r.1 = Ok (w_next w) /\
  store r.2 = (add_node [M] (props_of_dict P) (add_node [L] ∅ (store w)).2).2.
Proof.
  intros Hr HL HM Hp H1 H2 r. unfold r, create_node, create_node_params.
  rewrite (run_query_ready _ _ _ _ _ Hr) by (simpl; by rewrite Hp).
  unfold run_cypher, parse, lex, create_node_query. lex_pieces. cbn.
  unfold exec_query. simpl. unfold create_node_pat. simpl. rewrite H1. simpl in H2 |- *.
  unfold create_node_pat. simpl. rewrite H2. simpl.
  rewrite lookup_insert_ne by lia. by rewrite lookup_insert_eq.
Qed.

Lemma create_node_label_plants_node_witness :
  let r := create_node fixture_conn ("Person" +:+ ") CREATE (b:" +:+ "Admin")
             [("name", VStr "root")] fixture_entered in
  r.1 = Ok (w_next fixture_entered) /\
  store r.2 = (add_node ["Admin"] (props_of_dict [("name", VStr "root")])
                 (add_node ["Person"] ∅ (store fixture_entered)).2).2.
Proof. apply (create_node_label_plants_node _ 1); by_decide. Defined.

(** ... and when the new node breaks no uniqueness constraint, it is
    stored and returned. *)
Lemma create_node_ready_ok self s L P w :
  ready self s w -> valid_ident L = true -> dict_packable P = true ->
  new_clash (store w) (Node [L] (props_of_dict P)) = None ->
  create_node self L P w =
    (Ok (w_next w),
     after_run self s (create_node_query L) (add_node [L] (props_of_dict P) (store w)).2
       [[("a", RNode (g_next (store w)) (Node [L] (props_of_dict P)))]] w).
Proof. intros Hr HL Hp Hv. by rewrite (create_node_ready _ s), Hv. Qed.

(** The helpers' parameters, packed by the driver: a dict packs when
    every value does. *)
Lemma create_node_overflow self s L P w :
  ready self s w -> dict_packable P = false -> create_node self L P w = (Err OverflowError, w).
Proof.
  intros Hr Hp. apply (run_query_overflow _ _ _ _ _ Hr). simpl. by rewrite Hp.
Qed.

Lemma create_relationship_overflow self s sv T ev SL EL w :
  ready self s w -> value_packable sv && value_packable ev = false ->
  create_relationship self sv T ev SL EL w = (Err OverflowError, w).
Proof.
  intros Hr Hp. apply (run_query_overflow _ _ _ _ _ Hr). simpl. by rewrite andb_true_r.
Qed.

Lemma delete_node_overflow self s L P w :
  ready self s w -> dict_packable P = false -> delete_node self L P w = (Err OverflowError, w).
Proof.
  intros Hr Hp. apply (run_query_overflow _ _ _ _ _ Hr).
  change (packable (dict_params P) = false). by rewrite packable_dict_params.
Qed.

(** [delete_node] with a non-empty dict of identifier keys runs
    [delete_matching] on the server's store and returns no record. *)
Lemma delete_node_ready self s L P w :
  ready self s w -> valid_ident L = true -> P <> [] ->
  Forall (fun kv => valid_ident kv.1 = true) P -> NoDup (map fst P) -> dict_packable P = true ->
  delete_node self L P w =
    (Ok (w_next w), after_run self s (delete_node_query L P) (delete_matching L P (store w)) [] w).
Proof.
  intros Hr HL HP HK Hnd Hp. unfold delete_node.
  rewrite (run_query_ready _ _ _ _ _ Hr)
    by (change (packable (dict_params P) = true); by rewrite packable_dict_params).
  unfold run_cypher, parse. rewrite lex_delete_node_query by done. cbn [mbind option_bind].
  rewrite parse_tokens_delete_node by (by destruct P). cbn [of_option].
  rewrite result_bind_ok. unfold delete_node_ast. cbn [from_option id].
  by rewrite exec_delete_node.
Qed.

(** C8: [create_node] with an identifier label, on a connection inside
    its [with] block, adds exactly one node under an id that was free,
    keeps every other node and every relationship, and returns the node;
    the node carries the label and each non-null value of the dict
    unchanged, whatever characters it contains: values are bound as a
    parameter, never parsed (spec P5).  Its integers must fit the driver's
    64-bit encoding, and the node must clash with no stored node under a
    uniqueness constraint of the schema. *)
Theorem create_node_spec self s L P w :
  ready self s w -> graph_wf (store w) -> valid_ident L = true ->
  NoDup (map fst P) -> dict_packable P = true ->
  new_clash (store w) (Node [L] (props_of_dict P)) = None ->
  exists r i n w', create_node self L P w = (Ok r, w') /\
    w_results w' !! r = Some (ResultObj (OSession s) [[("a", RNode i n)]] RLive) /\
    g_nodes (store w) !! i = None /\
    g_nodes (store w') = <[i := n]> (g_nodes (store w)) /\
    g_rels (store w') = g_rels (store w) /\
    n_labels n = [L] /\
    (forall k v, (k, v) ∈ P -> v <> VNull -> n_props n !! k = Some v).
Proof.
  intros Hr Hwf HL Hnd Hp Hc. rewrite (create_node_ready_ok self s) by done.
  do 4 eexists. split; [reflexivity|]. split; [apply after_run_result|]. simpl.
  split; [by apply lookup_fresh|]. split_and!; [done|done|done|].
  intros k v Hin Hv. by apply props_of_dict_lookup.
Qed.

Lemma create_node_spec_witness :
  exists r i n w', create_node fixture_conn "Person" [("name", VStr "Ann")] fixture_entered =
                   (Ok r, w') /\
    w_results w' !! r = Some (ResultObj (OSession 1) [[("a", RNode i n)]] RLive) /\
    g_nodes (store fixture_entered) !! i = None /\
    g_nodes (store w') = <[i := n]> (g_nodes (store fixture_entered)) /\
    g_rels (store w') = g_rels (store fixture_entered) /\
    n_labels n = ["Person"] /\
    (forall k v, (k, v) ∈ [("name", VStr "Ann")] -> v <> VNull -> n_props n !! k = Some v).
Proof.
  apply (create_node_spec fixture_conn 1);
    [by_decide|by_decide|reflexivity|by_decide|reflexivity|reflexivity].
Defined.

(** C26: integers travel as signed 64-bit values (PackStream): a dict
    holding an integer outside [-2^63, 2^63 - 1] makes [create_node] raise
    [OverflowError] on the client, and nothing reaches the server: the
    world, its store and call log included, is unchanged.  Python's [int]
    is unbounded and the wrapper passes the dict on unchecked. *)
Theorem create_node_int_overflow self s L P k z w :
  ready self s w -> (k, VInt z) ∈ P -> (z < - 2 ^ 63 \/ 2 ^ 63 <= z)%Z ->
  create_node self L P w = (Err OverflowError, w).
Proof.
  intros Hr Hin Hz. apply (create_node_overflow _ s); [done|].
  apply (dict_packable_overflow _ k z); [done|lia].
Qed.

Lemma create_node_int_overflow_witness :
  create_node fixture_conn "Person" [("name", VStr "Ann"); ("age", VInt (2 ^ 63))] fixture_entered =
    (Err OverflowError, fixture_entered).
Proof.
  apply (create_node_int_overflow _ 1 _ _ "age" (2 ^ 63)); [by_decide|by_decide|lia].
Defined.



(** C30: a schema constraint surfaces as the server's error, passed on
    unchanged (spec §4.1, failure semantics): when the store holds a node
    labelled [L] whose [k] is [v], [(L, k)] is a uniqueness constraint and
    the dict gives [k] the same value, [create_node] raises
    [ConstraintValidationFailed] and the store is unchanged; only the call
    to the server is logged. *)
Theorem create_node_unique_violation self s L P k v i n0 w :
  ready self s w -> valid_ident L = true -> dict_packable P = true -> NoDup (map fst P) ->
  (L, k) ∈ g_unique (store w) -> (k, v) ∈ P -> v <> VNull ->
  g_nodes (store w) !! i = Some n0 -> L ∈ n_labels n0 -> n_props n0 !! k = Some v ->
  exists L' k', create_node self L P w =
    (Err (ClientError (ConstraintValidationFailed L' k')), log_event (EvRun s (create_node_query L)) w).
Proof.
  intros Hr HL Hp Hnd Hc Hin Hv Hi Hl Hk. rewrite (create_node_ready _ s) by done.
  destruct (new_clash _ _) as [[L' k']|] eqn:E; [by exists L', k'|].
  exfalso. apply (new_clash_None _ _ _ E Hc i n0 Hi). simpl.
  assert (Hpk : props_of_dict P !! k = Some v) by by apply props_of_dict_lookup.
  split_and!; simpl; [set_solver|done|by eexists|by rewrite Hpk, Hk].
Qed.

Lemma create_node_unique_violation_witness :
  exists L' k', create_node fixture_conn "Person" [("name", VStr "Bob"); ("age", VInt 30)]
                  fixture_unique_entered =
    (Err (ClientError (ConstraintValidationFailed L' k')),
     log_event (EvRun 1 (create_node_query "Person")) fixture_unique_entered).
Proof.
  apply (create_node_unique_violation fixture_conn 1 _ _ "name" (VStr "Bob") 0
           (Node ["Person"] {["name" := VStr "Bob"]}));
    [by_decide|reflexivity|reflexivity|by_decide|by_decide|by_decide|done|
     vm_compute; reflexivity|by_decide|vm_compute; reflexivity].
Defined.

(** C4: detach-delete (spec §4.1, P3): [delete_node(L, P)] with a
    non-empty dict of identifier keys removes exactly the nodes of label
    [L] whose properties equal every pair of [P], keeps every other node,
    and keeps exactly the relationships whose two ends survive: none is
    left pointing at a deleted node, none other is lost. *)
Theorem delete_node_spec self s L P w :
  ready self s w -> graph_wf (store w) -> valid_ident L = true -> P <> [] ->
  Forall (fun kv => valid_ident kv.1 = true) P -> NoDup (map fst P) -> dict_packable P = true ->
  exists r w', delete_node self L P w = (Ok r, w') /\
    w_results w' !! r = Some (ResultObj (OSession s) [] RLive) /\
    (forall i n, g_nodes (store w') !! i = Some n <->
                 g_nodes (store w) !! i = Some n /\ matches_dict L P n = false) /\
    (forall j r, g_rels (store w') !! j = Some r <->
                 g_rels (store w) !! j = Some r /\
                 is_Some (g_nodes (store w') !! r_src r) /\
                 is_Some (g_nodes (store w') !! r_dst r)).
Proof.
  intros Hr Hwf HL HP HK Hnd Hp. rewrite (delete_node_ready self s) by done.
  do 2 eexists. split; [reflexivity|]. split; [apply after_run_result|].
  rewrite after_run_graph. split.
  - intros i n. apply delete_matching_nodes.
  - intros j r. rewrite delete_matching_rels, !delete_matching_alive.
    split; [|naive_solver].
    intros (Hj & Hs & Hd). destruct (wf_rels_ends _ Hwf _ _ Hj). naive_solver.
Qed.

Lemma delete_node_spec_witness :
  exists r w', delete_node fixture_conn "Person" [("name", VStr "Bob")] fixture_entered = (Ok r, w') /\
    w_results w' !! r = Some (ResultObj (OSession 1) [] RLive) /\
    (forall i n, g_nodes (store w') !! i = Some n <->
                 g_nodes (store fixture_entered) !! i = Some n /\
                 matches_dict "Person" [("name", VStr "Bob")] n = false) /\
    (forall j r, g_rels (store w') !! j = Some r <->
                 g_rels (store fixture_entered) !! j = Some r /\
                 is_Some (g_nodes (store w') !! r_src r) /\
                 is_Some (g_nodes (store w') !! r_dst r)).
Proof.
  apply (delete_node_spec fixture_conn 1);
    [by_decide|by_decide|reflexivity|by_decide|by_decide|by_decide|reflexivity].
Defined.

(** C3: round trip (spec P1): on a ready connection, [create_node(L, P)]
    followed by [delete_node(L, P)] gives back the nodes and relationships
    the store had, when the label and keys are identifiers, the dict is
    non-empty with no [None] value, and no node matched [(L, P)] before. *)
Theorem create_then_delete self s L P w :
  ready self s w -> graph_wf (store w) ->
  valid_ident L = true -> P <> [] -> Forall (fun kv => valid_ident kv.1 = true) P ->
  NoDup (map fst P) -> Forall (fun kv => kv.2 <> VNull) P -> dict_packable P = true ->
  new_clash (store w) (Node [L] (props_of_dict P)) = None ->
  map_Forall (fun _ n => matches_dict L P n = false) (g_nodes (store w)) ->
  exists r w', (create_node self L P;; delete_node self L P) w = (Ok r, w') /\
             g_nodes (store w') = g_nodes (store w) /\
             g_rels (store w') = g_rels (store w).
Proof.
  intros Hr Hwf HL HP HK Hnd Hnn Hp Hc Hnone.
  rewrite stM_bind_run, (create_node_ready_ok self s) by done.
  rewrite (delete_node_ready _ _ _ _ _ (ready_after_run _ _ _ _ _ _ Hr)) by done.
  rewrite after_run_graph, delete_matching_add_node by done.
  do 2 eexists. split; [reflexivity|]. done.
Qed.

Lemma create_then_delete_witness :
  exists r w', (create_node fixture_conn "Person" [("name", VStr "Ann"); ("age", VInt 41)];;
              delete_node fixture_conn "Person" [("name", VStr "Ann"); ("age", VInt 41)])
               fixture_entered = (Ok r, w') /\
    g_nodes (store w') = g_nodes (store fixture_entered) /\
    g_rels (store w') = g_rels (store fixture_entered).
Proof.
  apply (create_then_delete fixture_conn 1);
    [by_decide|by_decide|reflexivity|by_decide|by_decide|by_decide|by_decide|reflexivity|reflexivity|
     by_decide].
Defined.

(** C13: spec P1 fails for any dict holding a [None] value: [create_node]
    stores no property for it, and [delete_node] compares with [null],
    which equals nothing in Cypher; the delete removes nothing, so after
    the round trip the store is exactly the one [create_node] left, the
    new node included. *)
Theorem create_then_delete_null self s L P k w :
  ready self s w -> valid_ident L = true -> P <> [] -> Forall (fun kv => valid_ident kv.1 = true) P ->
  NoDup (map fst P) -> dict_packable P = true ->
  new_clash (store w) (Node [L] (props_of_dict P)) = None -> (k, VNull) ∈ P ->
  exists r w', (create_node self L P;; delete_node self L P) w = (Ok r, w') /\
    store w' = (add_node [L] (props_of_dict P) (store w)).2.
Proof.
  intros Hr HL HP HK Hnd Hp Hc Hin.
  rewrite stM_bind_run, (create_node_ready_ok self s) by done.
  rewrite (delete_node_ready _ _ _ _ _ (ready_after_run _ _ _ _ _ _ Hr)) by done.
  rewrite after_run_graph, (delete_matching_null _ _ k) by done.
  do 2 eexists. split; [reflexivity|]. apply after_run_graph.
Qed.

Lemma create_then_delete_null_witness :
  exists r w', (create_node fixture_conn "Person" [("name", VStr "Ann"); ("nick", VNull)];;
              delete_node fixture_conn "Person" [("name", VStr "Ann"); ("nick", VNull)])
               fixture_entered = (Ok r, w') /\
    store w' = (add_node ["Person"] (props_of_dict [("name", VStr "Ann"); ("nick", VNull)])
                  (store fixture_entered)).2.
Proof.
  apply (create_then_delete_null fixture_conn 1 _ _ "nick");
    [by_decide|reflexivity|done|by_decide|by_decide|reflexivity|reflexivity|by_decide].
Defined.

(** [create_relationship] with identifier names links every node of
    [SL] named [sv] to every node of [EL] named [ev]. *)
Lemma create_relationship_ready self s sv T ev SL EL w :
  ready self s w -> valid_ident T = true -> valid_ident SL = true -> valid_ident EL = true ->
  value_packable sv && value_packable ev = true ->
  create_relationship self sv T ev SL EL w =
    (Ok (w_next w), after_run self s (create_relationship_query T SL EL)
              (link_pairs T (list_prod (matching_ids (store w) [SL] [("name", sv)])
                                       (matching_ids (store w) [EL] [("name", ev)]))
                 (store w)) [] w).
Proof.
  intros Hr HT HS HE Hp. unfold create_relationship, create_relationship_params.
  rewrite (run_query_ready _ _ _ _ _ Hr) by (simpl; by rewrite andb_true_r).
  unfold run_cypher, parse. rewrite lex_create_relationship_query by done. simpl.
  by rewrite exec_create_relationship.
Qed.

Lemma matching_pairs_exist g A B kv kv' :
  Forall (fun ij => is_Some (g_nodes g !! ij.1) /\ is_Some (g_nodes g !! ij.2))
    (list_prod (matching_ids g A kv) (matching_ids g B kv')).
Proof.
  apply Forall_forall. intros [i j] [Hi Hj]%list_elem_of_In%in_prod_iff.
  split; eapply matching_ids_some; apply list_elem_of_In; eassumption.
Qed.

(** C6: multi-match semantics of [create_relationship] (spec §4.1, §9):
    with identifier names it creates one [T] edge from every node of [SL]
    named [sv] to every node of [EL] named [ev], that is [|A| * |B|] new
    relationships, keeps every node and every relationship there was, adds
    no other edge, and leaves the store well formed. *)
Theorem create_relationship_pairs self s sv T ev SL EL w :
  ready self s w -> graph_wf (store w) ->
  valid_ident T = true -> valid_ident SL = true -> valid_ident EL = true ->
  value_packable sv && value_packable ev = true ->
  let g := store w in
  let A := matching_ids g [SL] [("name", sv)] in
  let B := matching_ids g [EL] [("name", ev)] in
  exists res w', create_relationship self sv T ev SL EL w = (Ok res, w') /\
    let g' := store w' in
    graph_wf g' /\ g_nodes g' = g_nodes g /\ g_rels g ⊆ g_rels g' /\
    size (g_rels g') = size (g_rels g) + length A * length B /\
    (forall j r, g_rels g' !! j = Some r -> g_rels g !! j = None ->
                 r_type r = T /\ r_src r ∈ A /\ r_dst r ∈ B).
Proof.
  intros Hr Hwf HT HS HE Hpk g A B. rewrite (create_relationship_ready self s) by done.
  do 2 eexists. split; [reflexivity|]. rewrite after_run_graph.
  pose proof (matching_pairs_exist g [SL] [EL] [("name", sv)] [("name", ev)]) as Hp.
  destruct (link_pairs_wf_size T _ g Hwf Hp) as [Hwf' Hsz]. unfold A, B, g in *.
  split_and!; [done|apply link_pairs_nodes|by apply link_pairs_mono|by rewrite Hsz, length_prod|].
  intros j r Hj Hnone. destruct (link_pairs_new _ _ _ _ _ Hj) as [?|[HTr Hin]]; [congruence|].
  apply list_elem_of_In, in_prod_iff in Hin as [? ?]. split; [done|].
  split; by apply list_elem_of_In.
Qed.

Lemma create_relationship_pairs_witness :
  let g := store fixture_entered in
  let A := matching_ids g ["Person"] [("name", VStr "Bob")] in
  let B := matching_ids g ["Person"] [("name", VStr "Bob")] in
  exists res w', create_relationship fixture_conn (VStr "Bob") "KNOWS" (VStr "Bob") "Person" "Person"
               fixture_entered = (Ok res, w') /\
    let g' := store w' in
    graph_wf g' /\ g_nodes g' = g_nodes g /\ g_rels g ⊆ g_rels g' /\
    size (g_rels g') = size (g_rels g) + length A * length B /\
    (forall j r, g_rels g' !! j = Some r -> g_rels g !! j = None ->
                 r_type r = "KNOWS" /\ r_src r ∈ A /\ r_dst r ∈ B).
Proof.
  apply (create_relationship_pairs fixture_conn 1);
    [by_decide|by_decide|reflexivity|reflexivity|reflexivity|reflexivity].
Defined.

(** C7: degenerate match (spec P4): when no node of [SL] is named [sv], or
    no node of [EL] is named [ev], [create_relationship] raises nothing,
    returns no record and leaves the store exactly as it was. *)
Theorem create_relationship_no_match self s sv T ev SL EL w :
  ready self s w -> valid_ident T = true -> valid_ident SL = true -> valid_ident EL = true ->
  value_packable sv && value_packable ev = true ->
  map_Forall (fun _ n => node_ok [SL] [("name", sv)] n = false) (g_nodes (store w)) \/
  map_Forall (fun _ n => node_ok [EL] [("name", ev)] n = false) (g_nodes (store w)) ->
  exists res w', create_relationship self sv T ev SL EL w = (Ok res, w') /\
             store w' = store w.
Proof.
  intros Hr HT HS HE Hpk Hno. rewrite (create_relationship_ready self s) by done.
  do 2 eexists. split; [reflexivity|]. rewrite after_run_graph.
  destruct Hno as [Hno|Hno]; rewrite (matching_ids_nil _ _ _ Hno); [done|].
  by induction (matching_ids _ [SL] _).
Qed.

Lemma create_relationship_no_match_witness :
  exists res w', create_relationship fixture_conn (VStr "Ann") "KNOWS" (VStr "Bob") "Person" "Person"
               fixture_entered = (Ok res, w') /\
             store w' = store fixture_entered.
Proof.
  apply (create_relationship_no_match fixture_conn 1);
    [by_decide|reflexivity|reflexivity|reflexivity|reflexivity|left; by_decide].
Defined.

Lemma run_show_databases ps g : run_cypher "SHOW DATABASES" ps g = Ok (g, map show_record (g_dbs g)).
Proof.
  unfold run_cypher. replace (parse "SHOW DATABASES") with (Some [CShowDatabases]) by (by vm_compute).
  reflexivity.
Qed.

Lemma record_names dbs :
  mapM_res record_name (map show_record dbs) = Ok (map (fun n => RScalar (VStr n)) dbs).
Proof. induction dbs as [|n dbs IH]; [done|]. simpl. by rewrite IH. Qed.

Lemma ready_frame self s w w' :
  ready self s w -> w_sessions w' = w_sessions w -> w_drivers w' = w_drivers w ->
  srv_up (w_server w') = srv_up (w_server w) -> srv_auth (w_server w') = srv_auth (w_server w) ->
  ready self s w'.
Proof.
  intros [Hs Hso [dv (Hd & Hdo & Ha)] Hup] E1 E2 E3 E4.
  split; rewrite ?E1, ?E2, ?E3, ?E4; eauto.
Qed.

Lemma show_databases_step self s w :
  ready self s w ->
  exists w', show_databases self w = (Ok (map (fun n => RScalar (VStr n)) (g_dbs (store w))), w') /\
    store w' = store w /\
    w_log w' = w_log w ++ [EvBegin (w_next w) s; EvTxRun (w_next w) "SHOW DATABASES";
                           EvCommit (w_next w)] /\
    w_txs w' !! w_next w = Some (TxObj s false (store w)) /\
    ready self s w'.
Proof.
  intros Hr. pose proof Hr as [Hs Hso [dv (Hd & Hdo & Ha)] Hup].
  unfold show_databases, session_attr, session_begin_transaction, open_session, open_driver,
    connect, alloc, st_modify, with_tx, tx_run, open_tx, tx_commit, iterate_result. rewrite Hs.
  st_unfold.
  destruct Hso as [Hso|Hso]; rewrite Hso; cbn; rewrite Hd, Hdo; cbn; rewrite Hup, decide_True by done;
    cbn; repeat (first [rewrite lookup_insert_eq | rewrite run_show_databases
                       | rewrite record_names | progress unfold open_tx]; cbn);
    (eexists; split; [reflexivity|]); cbn;
    rewrite <- !app_assoc; split_and!; try done;
    first [by rewrite lookup_insert_eq | by apply (ready_frame _ _ _ _ Hr)].
Qed.

(** C15: [show_databases] on a ready connection returns the name of every
    database the server hosts, in order; it works in a transaction of its
    own that is committed and closed before the call returns (spec §4.1:
    the result is materialized inside the transaction scope), and the
    store is unchanged. *)
Theorem show_databases_ready self s w :
  ready self s w ->
  exists w', show_databases self w = (Ok (map (fun n => RScalar (VStr n)) (g_dbs (store w))), w') /\
    store w' = store w /\
    w_log w' = w_log w ++ [EvBegin (w_next w) s; EvTxRun (w_next w) "SHOW DATABASES";
                           EvCommit (w_next w)] /\
    w_txs w' !! w_next w = Some (TxObj s false (store w)).
Proof.
  intros Hr. destruct (show_databases_step self s w Hr) as (w' & H1 & H2 & H3 & H4 & _).
  by exists w'.
Qed.

Lemma show_databases_ready_witness :
  exists w', show_databases fixture_conn fixture_entered =
               (Ok (map (fun n => RScalar (VStr n)) (g_dbs (store fixture_entered))), w') /\
    store w' = store fixture_entered /\
    w_log w' = w_log fixture_entered ++ [EvBegin (w_next fixture_entered) 1;
                 EvTxRun (w_next fixture_entered) "SHOW DATABASES"; EvCommit (w_next fixture_entered)] /\
    w_txs w' !! w_next fixture_entered =
      Some (TxObj 1 false (store fixture_entered)).
Proof. apply (show_databases_ready fixture_conn 1). by_decide. Defined.

(** C19: before [__enter__] the connection has no session: [run_query] on
    the object [__init__] returned raises [AttributeError] and changes
    nothing, the driver it opened included. *)
Theorem run_query_before_enter uri user password q ps w :
  supported_scheme uri = true ->
  exists conn w1, __init__ uri user password w = (Ok conn, w1) /\
    run_query conn q ps w1 = (Err (AttributeError "run"), w1) /\
    w_drivers w1 !! _driver conn = Some (DriverObj uri (user, password) true).
Proof.
  intros Huri. unfold __init__, graphdb_driver, alloc, st_modify. rewrite Huri. st_unfold.
  do 2 eexists. split; [reflexivity|]. split; [reflexivity|]. simpl. by rewrite lookup_insert_eq.
Qed.

Lemma run_query_before_enter_witness :
  exists conn w1, __init__ fixture_uri "neo4j" "secret" fixture_world = (Ok conn, w1) /\
    run_query conn "RETURN 1" None w1 = (Err (AttributeError "run"), w1) /\
    w_drivers w1 !! _driver conn = Some (DriverObj fixture_uri ("neo4j", "secret") true).
Proof. apply run_query_before_enter. reflexivity. Defined.

(** C20: an unsupported URI scheme makes the [with] statement raise before
    any object exists: the body never runs, [__exit__] is not called, and
    the world is unchanged. *)
Theorem with_connection_bad_scheme {A} uri user password (body : Neo4jConnection -> M A) w :
  supported_scheme uri = false ->
  with_connection uri user password body w = (Err ConfigurationError, w).
Proof.
  intros Huri. unfold with_connection, __init__, graphdb_driver. rewrite Huri. reflexivity.
Qed.

Lemma with_connection_bad_scheme_witness :
  with_connection "http://localhost:7474" "neo4j" "secret" (fun c => do_calls c fixture_calls)
    fixture_world = (Err ConfigurationError, fixture_world).
Proof. apply with_connection_bad_scheme. reflexivity. Defined.

(** C25: a result is single-pass (spec §3): on a ready connection, reading
    the result of [run_query] gives exactly the records the server
    computed, and reading it again gives nothing. *)
Theorem result_single_pass self s q ps w g' recs :
  ready self s w -> packable (default [] ps) = true ->
  run_cypher q (default [] ps) (store w) = Ok (g', recs) ->
  exists w', (result ← run_query self q ps; first ← iterate_result result;
              again ← iterate_result result; mret (first, again)) w = (Ok (recs, []), w').
Proof.
  intros Hr Hp Hrun. rewrite stM_bind_run, (run_query_ready _ _ _ _ _ Hr Hp), Hrun.
  unfold iterate_result. st_unfold. rewrite after_run_result. simpl.
  rewrite lookup_insert_eq. simpl. by eexists.
Qed.

Lemma result_single_pass_witness :
  exists w', (result ← run_query fixture_conn "MATCH (a:Person) RETURN a.name" None;
              first ← iterate_result result; again ← iterate_result result; mret (first, again))
               fixture_entered = (Ok ([[("a.name", RScalar (VStr "Bob"))]], []), w').
Proof.
  apply (result_single_pass fixture_conn 1 _ _ _ fixture_store);
    [by_decide|reflexivity|vm_compute; reflexivity].
Defined.

(** C11: [delete_node] with an empty dict raises the server's syntax error
    and leaves the store as it was: nothing is deleted (spec §4.1 asks
    for a fail-fast guard; the code has none, the server's parser is what
    fails). *)
Theorem delete_node_empty_dict self s L w :
  ready self s w -> valid_ident L = true ->
  delete_node self L [] w =
    (Err (ClientError SyntaxError), log_event (EvRun s (delete_node_query L [])) w).
Proof.
  intros Hr HL. unfold delete_node. rewrite (run_query_ready _ _ _ _ _ Hr) by done.
  unfold run_cypher. by rewrite parse_delete_node_empty.
Qed.

Lemma delete_node_empty_dict_witness :
  delete_node fixture_conn "Person" [] fixture_entered =
    (Err (ClientError SyntaxError), log_event (EvRun 1 (delete_node_query "Person" [])) fixture_entered).
Proof. apply delete_node_empty_dict; [by_decide|reflexivity]. Defined.

(** ** Preservation of a world property by the wrapper's methods

    Whatever the property, the methods preserve it as soon as the driver
    calls they make do: the section's hypotheses. *)

Section Preserve.
Context (I : world -> Prop).
Context (Hrun : forall s q ps, preserves I (session_run s q ps))
        (Hbegin : forall s, preserves I (session_begin_transaction s))
        (Htx_run : forall t q ps, preserves I (tx_run t q ps))
        (Hcommit : forall t, preserves I (tx_commit t))
        (Hrollback : forall t, preserves I (tx_rollback t))
        (Hiterate : forall r, preserves I (iterate_result r)).

Lemma preserves_bind {A B} (c : M A) (f : A -> M B) :
  preserves I c -> (forall a, preserves I (f a)) -> preserves I (c ≫= f).
Proof.
  intros Hc Hf w Hw. unfold mbind, stM_bind. specialize (Hc w Hw).
  destruct (c w) as [[a|e] w']; simpl in *; [by apply Hf|done].
Qed.

Lemma preserves_ret {A} (a : A) : preserves I (mret a).
Proof. by intros w Hw. Qed.

Lemma preserves_raise {A} e : preserves I (st_raise (A:=A) e).
Proof. by intros w Hw. Qed.

Lemma preserves_lift {A} (r : result exn A) : preserves I (st_lift r).
Proof. by intros w Hw. Qed.

Lemma preserves_with_tx {A} t (body : M A) : preserves I body -> preserves I (with_tx t body).
Proof.
  intros Hb w Hw. unfold with_tx. specialize (Hb w Hw).
  destruct (body w) as [[a|e] w1]; simpl in Hb.
  - pose proof (Hcommit t w1 Hb). destruct (tx_commit t w1) as [[]]; done.
  - pose proof (Hrollback t w1 Hb). destruct (tx_rollback t w1) as [[]]; done.
Qed.

Lemma preserves_finally {A} (c : M A) (f : M unit) :
  preserves I c -> preserves I f -> preserves I (st_finally c f).
Proof.
  intros Hc Hf w Hw. unfold st_finally. specialize (Hc w Hw).
  destruct (c w) as [r w1]. specialize (Hf w1 Hc). destruct (f w1) as [[] w2], r; done.
Qed.

Create HintDb preserve.
#[local] Hint Resolve preserves_bind preserves_ret preserves_raise preserves_lift
  preserves_with_tx Hrun Hbegin Htx_run Hiterate : preserve.

Lemma preserves_session_attr self a : preserves I (session_attr self a).
Proof. unfold session_attr. destruct (_session self); auto with preserve. Qed.

#[local] Hint Resolve preserves_session_attr : preserve.

Lemma preserves_run_query self q ps : preserves I (run_query self q ps).
Proof. unfold run_query. auto with preserve. Qed.

Lemma preserves_show_databases self : preserves I (show_databases self).
Proof. unfold show_databases. eauto 7 with preserve. Qed.

#[local] Hint Resolve preserves_run_query preserves_show_databases : preserve.

(** A body of calls, provided the network going away preserves [I] or
    does not happen. *)
Lemma preserves_do_calls conn cs :
  (CallNetworkDown ∈ cs -> preserves I network_down) -> preserves I (do_calls conn cs).
Proof.
  induction cs as [|c cs IH]; intros Hnd; simpl; [auto with preserve|].
  apply preserves_bind; [|intros _; apply IH; set_solver].
  destruct c; simpl; unfold create_node, create_relationship, delete_node;
    eauto with preserve; set_solver.
Qed.

End Preserve.

(** ** Transactions end before [show_databases] returns *)

Lemma tx_run_keeps_open t q ps L :
  preserves (fun w => tx_is_open t w /\ L `prefix_of` w_log w) (tx_run t q ps).
Proof.
  intros w [[tx [Ht Ho]] Hp]. unfold tx_run, open_tx, st_modify. st_unfold.
  rewrite Ht, Ho. simpl. destruct (packable _); simpl; [|split; [by exists tx|done]].
  destruct (run_cypher _ _ _) as [[g' recs]|e]; simpl;
    (split; [|by apply prefix_app_r]); [|by exists tx].
  eexists. simpl. by rewrite lookup_insert_eq.
Qed.

Lemma iterate_keeps_open t r L :
  preserves (fun w => tx_is_open t w /\ L `prefix_of` w_log w) (iterate_result r).
Proof. intros w Hw. unfold iterate_result. by repeat case_match. Qed.

(** [with tx: body]: whether the body returns or raises, the transaction
    is closed afterwards and the last logged event ends it. *)
Lemma with_tx_ends {A} t (body : M A) L w :
  preserves (fun w => tx_is_open t w /\ L `prefix_of` w_log w) body ->
  tx_is_open t w -> L `prefix_of` w_log w ->
  let w' := (with_tx t body w).2 in
  (exists tx, w_txs w' !! t = Some tx /\ tx_open tx = false) /\
  (last (w_log w') = Some (EvCommit t) \/ last (w_log w') = Some (EvRollback t)) /\
  L `prefix_of` w_log w'.
Proof.
  intros Hb Ho Hp w'. unfold w', with_tx. specialize (Hb w (conj Ho Hp)).
  destruct (body w) as [[a|e] w1]; simpl in Hb; destruct Hb as [[tx [Ht Hto]] Hp1];
    unfold tx_commit, tx_rollback, open_tx, st_modify; st_unfold; rewrite Ht, Hto; simpl;
    (split; [eexists; by rewrite lookup_insert_eq|]); rewrite last_snoc;
    (split; [auto|by apply prefix_app_r]).
Qed.

(** C22: every transaction [show_databases] begins is ended before the call
    returns, whatever happens inside it: either the call raised before
    beginning one (the log and transactions are untouched), or the log
    shows a transaction begun, the last event commits or rolls it back, and
    it is closed (spec §4.1: "the transaction scope is closed
    automatically"). *)
Theorem show_databases_tx_ends self w :
  let r := show_databases self w in
  (w_log r.2 = w_log w /\ w_txs r.2 = w_txs w) \/
  (exists t s, EvBegin t s ∈ w_log r.2 /\
     (exists tx, w_txs r.2 !! t = Some tx /\ tx_open tx = false) /\
     (last (w_log r.2) = Some (EvCommit t) \/ last (w_log r.2) = Some (EvRollback t))).
Proof.
  intros r. unfold r, show_databases, session_attr, session_begin_transaction, open_session,
    open_driver, connect, alloc, st_modify.
  destruct (_session self) as [s|]; st_unfold; simpl; [|by left].
  repeat (case_match; simplify_eq/=); try by left.
  match goal with W : world |- _ => rename W into w end.
  right. exists (w_next w), s.
  set (L := w_log w ++ [EvBegin (w_next w) s]).
  match goal with |- context [with_tx ?t ?b ?w1] =>
    destruct (with_tx_ends t b L w1) as (Hc & Hl & Hp) end.
  - apply (preserves_bind _); [apply tx_run_keeps_open|intros].
    apply (preserves_bind _); [apply iterate_keeps_open|intros; apply preserves_lift].
  - eexists. simpl. by rewrite lookup_insert_eq.
  - done.
  - split_and!; [|done|done]. destruct Hp as [k ->]. unfold L. set_solver.
Qed.

(** ** The body keeps the connection's resources *)

Section Lifecycle.
Context (d s : nat) (L0 : list event).
Local Abbreviation live := (live d s L0).
Local Abbreviation keeps := (preserves live).

Lemma live_log_event ev w : ~ releases d s ev -> live w -> live (log_event ev w).
Proof.
  intros Hev [Hs Hd [mid [Hl Hf]]]. split; simpl; auto.
  exists (mid ++ [ev]). rewrite Hl, app_assoc. split; [done|]. apply Forall_app; auto.
Qed.

Lemma live_set_graph g w : live w -> live (set_graph g w).
Proof. intros [Hs Hd Hl]. by split. Qed.

Lemma live_set_tx t tx w : live w -> live (set_tx t tx w).
Proof. intros [Hs Hd Hl]. by split. Qed.

Lemma live_bump w : live w -> live (bump w).
Proof. intros [Hs Hd Hl]. by split. Qed.

Lemma live_set_result r ro w : live w -> live (set_result r ro w).
Proof. intros [Hs Hd Hl]. by split. Qed.

Lemma live_discard o w : live w -> live (discard_results o w).
Proof. intros [Hs Hd Hl]. by split. Qed.

Lemma live_set_session_other s' so w : s' <> s -> live w -> live (set_session s' so w).
Proof. intros Hne [Hs Hd Hl]. split; simpl; auto. by rewrite lookup_insert_ne. Qed.

Lemma live_set_driver_other d' dv w : d' <> d -> live w -> live (set_driver d' dv w).
Proof. intros Hne [Hs [dv0 [Hd Ho]] Hl]. split; simpl; auto. exists dv0. by rewrite lookup_insert_ne. Qed.

Lemma live_set_session_run w :
  srv_up (w_server w) = true -> live w -> live (set_session s (SessionObj d true true) w).
Proof. intros Hup [Hs Hd Hl]. split; simpl; auto. rewrite lookup_insert_eq. by exists true. Qed.

Lemma keeps_session_run s' q ps : keeps (session_run s' q ps).
Proof.
  intros w Hw. unfold session_run, open_session, open_driver, connect, alloc, st_modify. st_unfold.
  destruct (w_sessions w !! s') as [so|] eqn:Eso; simpl; [|done].
  destruct (ses_open so) eqn:Eo; simpl; [|done].
  destruct (w_drivers w !! ses_driver so) as [dv|]; simpl; [|done].
  destruct (drv_open dv); simpl; [|done].
  destruct (srv_up (w_server w)) eqn:Eup; simpl; [|done].
  case_decide; simpl; [|done].
  destruct (packable _); simpl; [|done].
  assert (Hl : live (log_event (EvRun s' q) w)) by (apply live_log_event; [by intros [|]|done]).
  destruct (run_cypher _ _ _) as [[g' recs]|e]; simpl; [|done].
  destruct (decide (s' = s)) as [->|Hne].
  - destruct Hw as [[p [Hs _]] _ _]. rewrite Hs in Eso. injection Eso as <-. simpl.
    by apply live_set_result, live_bump, live_set_session_run, live_set_graph.
  - by apply live_set_result, live_bump, live_set_session_other, live_set_graph.
Qed.

Lemma keeps_begin_transaction s' : keeps (session_begin_transaction s').
Proof.
  intros w Hw. unfold session_begin_transaction, open_session, open_driver, connect, alloc,
    st_modify. st_unfold.
  repeat case_match; simplify_eq/=; try done.
  apply live_log_event; [by intros [|]|]. by apply live_set_tx, live_bump.
Qed.

Lemma keeps_tx_run t q ps : keeps (tx_run t q ps).
Proof.
  intros w Hw. unfold tx_run, open_tx, alloc, st_modify. st_unfold.
  assert (Hl : forall ev, (forall s0, ev <> EvSessionClose s0) -> (forall d0, ev <> EvDriverClose d0) ->
                 live (log_event ev w)) by (intros ev H1 H2; apply live_log_event; [intros [|]; naive_solver|done]).
  repeat case_match; simplify_eq/=; try done; auto.
  apply live_set_result, live_bump, live_set_tx. by apply Hl.
Qed.

Lemma keeps_tx_commit t : keeps (tx_commit t).
Proof.
  intros w Hw. unfold tx_commit, open_tx, st_modify. st_unfold.
  repeat case_match; simplify_eq/=; try done.
  apply live_log_event; [by intros [|]|]. by apply live_discard, live_set_tx, live_set_graph.
Qed.

Lemma keeps_tx_rollback t : keeps (tx_rollback t).
Proof.
  intros w Hw. unfold tx_rollback, open_tx, st_modify. st_unfold.
  repeat case_match; simplify_eq/=; try done.
  apply live_log_event; [by intros [|]|]. by apply live_discard, live_set_tx.
Qed.

Lemma keeps_iterate_result r : keeps (iterate_result r).
Proof.
  intros w Hw. unfold iterate_result. repeat case_match; simpl; try done. by apply live_set_result.
Qed.

Lemma keeps_run_query conn q ps : keeps (run_query conn q ps).
Proof. eapply preserves_run_query. apply keeps_session_run. Qed.

Lemma keeps_do_calls conn cs : CallNetworkDown ∉ cs -> keeps (do_calls conn cs).
Proof.
  intros Hnd. apply preserves_do_calls;
    auto using keeps_session_run, keeps_begin_transaction, keeps_tx_run, keeps_tx_commit,
      keeps_tx_rollback, keeps_iterate_result.
  by intros ?%Hnd.
Qed.

End Lifecycle.

(** [__exit__] on a live connection closes the session, then the driver,
    and raises nothing. *)
Lemma exit_live d s L0 w :
  live d s L0 w ->
  exists dv, w_drivers w !! d = Some dv /\ drv_open dv = true /\
    __exit__ {| _driver := d; _session := Some s |} w =
      (Ok tt, log_event (EvDriverClose d)
                (set_driver d (DriverObj (drv_uri dv) (drv_auth dv) false)
                  (log_event (EvSessionClose s)
                    (discard_results (OSession s) (set_session s (SessionObj d false false) w))))).
Proof.
  intros [[p [Hs Hp]] [dv [Hd Hdo]] _]. exists dv. split; [done|]. split; [done|].
  unfold __exit__, session_attr, session_close, driver_close. st_unfold. simpl.
  rewrite Hs. simpl.
  assert (Hnr : p && negb (srv_up (w_server w)) = false) by (destruct p; [by rewrite Hp|done]).
  rewrite Hnr. simpl. by rewrite Hd, Hdo.
Qed.

(** The world right after [__init__] and [__enter__]. *)
Lemma with_connection_enter {A} uri user password (body : Neo4jConnection -> M A) w :
  supported_scheme uri = true ->
  with_connection uri user password body w =
    st_finally (body (entered_conn w)) (__exit__ (entered_conn w)) (entered_world uri user password w).
Proof.
  intros Huri. unfold with_connection, __init__, __enter__, graphdb_driver, driver_session,
    open_driver, alloc, st_modify. rewrite Huri. st_unfold. simpl.
  by rewrite lookup_insert_eq.
Qed.

Lemma enter_live uri user password w :
  live (w_next w) (S (w_next w)) (w_log w ++ [EvDriver (w_next w); EvSession (S (w_next w)) (w_next w)])
    (entered_world uri user password w).
Proof.
  split; simpl.
  - exists false. by rewrite lookup_insert_eq.
  - eexists. rewrite lookup_insert_eq. by split.
  - exists []. rewrite app_nil_r, <- app_assoc. by split.
Qed.

Lemma enter_ready uri user password w :
  srv_up (w_server w) = true -> (user, password) = srv_auth (w_server w) ->
  ready (entered_conn w) (S (w_next w)) (entered_world uri user password w).
Proof.
  intros Hup Ha. split; simpl; [done|right; by rewrite lookup_insert_eq| |done].
  eexists. rewrite lookup_insert_eq. by split_and!.
Qed.

Lemma entered_store uri user password w : store (entered_world uri user password w) = store w.
Proof. reflexivity. Qed.

(** C1: scoped release (spec P2): whatever sequence of helper calls the
    body makes, raising or not, as long as the network stays up, leaving
    the [with] block closes the session and then the driver, each exactly
    once, and after the last call of the body. *)
Theorem with_connection_releases uri user password cs w :
  supported_scheme uri = true -> CallNetworkDown ∉ cs ->
  let d := w_next w in
  let s := S (w_next w) in
  let w' := (with_connection uri user password (fun conn => do_calls conn cs) w).2 in
  (exists mid, w_log w' = w_log w ++ [EvDriver d; EvSession s d] ++ mid ++
                            [EvSessionClose s; EvDriverClose d] /\
               Forall (fun ev => ~ releases d s ev) mid) /\
  w_sessions w' !! s = Some (SessionObj d false false) /\
  (exists dv, w_drivers w' !! d = Some dv /\ drv_open dv = false).
Proof.
  intros Huri Hnd d s w'. unfold w'. rewrite with_connection_enter by done.
  pose proof (keeps_do_calls d s _ (entered_conn w) cs Hnd _ (enter_live uri user password w)) as Hl2.
  unfold st_finally, entered_conn. destruct (do_calls _ cs _) as [r w2]. simpl in Hl2.
  unfold d, s in *. destruct (exit_live _ _ _ _ Hl2) as (dv & Hd & Hdo & ->).
  destruct Hl2 as [_ _ [mid [Hlog Hf]]].
  destruct r; simpl; (split; [|split]);
    [ exists mid; rewrite Hlog, <- !app_assoc; done
    | by rewrite lookup_insert_eq
    | eexists; rewrite lookup_insert_eq; done
    | exists mid; rewrite Hlog, <- !app_assoc; done
    | by rewrite lookup_insert_eq
    | eexists; rewrite lookup_insert_eq; done ].
Qed.

Lemma with_connection_releases_witness :
  let d := w_next fixture_world in
  let s := S (w_next fixture_world) in
  let w' := (with_connection fixture_uri "neo4j" "secret" (fun conn => do_calls conn fixture_calls)
               fixture_world).2 in
  (exists mid, w_log w' = w_log fixture_world ++ [EvDriver d; EvSession s d] ++ mid ++
                            [EvSessionClose s; EvDriverClose d] /\
               Forall (fun ev => ~ releases d s ev) mid) /\
  w_sessions w' !! s = Some (SessionObj d false false) /\
  (exists dv, w_drivers w' !! d = Some dv /\ drv_open dv = false).
Proof. apply with_connection_releases; [reflexivity|by_decide]. Defined.

(** C10: no use after release (spec §3 invariant): once the [with] block
    has exited, a connection that escaped it cannot reach the server any
    more: [run_query] on it raises [SessionError] and changes nothing. *)
Theorem run_query_after_exit uri user password cs w q ps :
  supported_scheme uri = true -> CallNetworkDown ∉ cs ->
  forall conn w', with_connection uri user password (fun c => do_calls c cs;; mret c) w = (Ok conn, w') ->
  run_query conn q ps w' = (Err SessionError, w').
Proof.
  intros Huri Hnd conn w'. rewrite with_connection_enter by done.
  pose proof (keeps_do_calls _ _ _ (entered_conn w) cs Hnd _ (enter_live uri user password w)) as Hl2.
  unfold st_finally, entered_conn. rewrite stM_bind_run.
  destruct (do_calls _ cs _) as [[[]|e] w2]; simpl in Hl2; [|
    destruct (exit_live _ _ _ _ Hl2) as (dv & Hd & Hdo & ->); discriminate].
  rewrite stM_ret_run.
  destruct (exit_live _ _ _ _ Hl2) as (dv & Hd & Hdo & ->). intros [= <- <-].
  unfold run_query, session_attr, session_run, open_session. st_unfold. simpl.
  by rewrite lookup_insert_eq.
Qed.

Lemma run_query_after_exit_witness :
  let body c := do_calls c [CallCreateNode "Person" [("name", VStr "Ann")]; CallShowDatabases];; mret c in
  let w' := (with_connection fixture_uri "neo4j" "secret" body fixture_world).2 in
  run_query fixture_conn "RETURN 1" None w' = (Err SessionError, w').
Proof.
  intros body w'. apply (run_query_after_exit fixture_uri "neo4j" "secret"
    [CallCreateNode "Person" [("name", VStr "Ann")]; CallShowDatabases] fixture_world);
    [reflexivity|by_decide|vm_compute; reflexivity].
Defined.

(** C5: [__exit__] has no [try]/[finally] between its two calls (lines
    18-19): when [session.close()] raises, [driver.close()] is skipped.
    With the server lost while a result is still pending, leaving the
    [with] block raises [ServiceUnavailable], the session is marked
    closed, and the driver stays open: nothing in the log releases it,
    contrary to spec §4.1 ("then the driver handle ... regardless"). *)
Theorem with_connection_leaks_driver uri user password q ps w g' recs :
  supported_scheme uri = true -> srv_up (w_server w) = true ->
  (user, password) = srv_auth (w_server w) -> packable (default [] ps) = true ->
  run_cypher q (default [] ps) (store w) = Ok (g', recs) ->
  let d := w_next w in
  let s := S (w_next w) in
  let r := with_connection uri user password (fun c => run_query c q ps;; network_down) w in
  r.1 = Err ServiceUnavailable /\
  w_drivers r.2 !! d = Some (DriverObj uri (user, password) true) /\
  w_log r.2 = w_log w ++ [EvDriver d; EvSession s d; EvRun s q; EvSessionClose s].
Proof.
  intros Huri Hup Hauth Hp Hrun d s r. unfold r. rewrite with_connection_enter by done.
  unfold st_finally, entered_conn. rewrite stM_bind_run.
  rewrite (run_query_ready _ s) by first [by apply enter_ready | done].
  rewrite entered_store, Hrun. unfold entered_world.
  unfold network_down, st_modify, __exit__, session_attr, session_close, driver_close.
  st_unfold. cbn. rewrite lookup_insert_eq. cbn. unfold d, s.
  split_and!; [done|by rewrite lookup_insert_eq|by rewrite <- !app_assoc].
Qed.

Lemma with_connection_leaks_driver_witness :
  let q := create_node_query "Person" in
  let ps := Some [("properties", PMap [("name", VStr "Ann")])] in
  let r := with_connection fixture_uri "neo4j" "secret" (fun c => run_query c q ps;; network_down)
             fixture_world in
  r.1 = Err ServiceUnavailable /\
  w_drivers r.2 !! 0 = Some (DriverObj fixture_uri ("neo4j", "secret") true) /\
  w_log r.2 = [EvDriver 0; EvSession 1 0; EvRun 1 q; EvSessionClose 1].
Proof.
  apply (with_connection_leaks_driver _ _ _ _ _ fixture_world
           (add_node ["Person"] (props_of_dict [("name", VStr "Ann")]) fixture_store).2
           [[("a", RNode 1 (Node ["Person"] (props_of_dict [("name", VStr "Ann")])))]]);
    [reflexivity|reflexivity|reflexivity|reflexivity|vm_compute; reflexivity].
Defined.

(** C28: Python's [with] lets an exception raised by [__exit__] replace
    the body's: when the caller's own code raises after the network is
    lost with a result pending, [session.close()] raises
    [ServiceUnavailable] and the caller's exception never reaches it, in
    contrast with spec §7 ("every error surfaces unchanged"). *)
Theorem with_connection_masks_error uri user password q ps tag w g' recs :
  supported_scheme uri = true -> srv_up (w_server w) = true ->
  (user, password) = srv_auth (w_server w) -> packable (default [] ps) = true ->
  run_cypher q (default [] ps) (store w) = Ok (g', recs) ->
  (with_connection uri user password
     (fun c => run_query c q ps;; network_down;; (st_raise (AppError tag) : M unit)) w).1 =
    Err ServiceUnavailable.
Proof.
  intros Huri Hup Hauth Hp Hrun. rewrite with_connection_enter by done.
  unfold st_finally, entered_conn. rewrite stM_bind_run.
  rewrite (run_query_ready _ (S (w_next w))) by first [by apply enter_ready | done].
  rewrite entered_store, Hrun. unfold entered_world.
  unfold network_down, st_modify, __exit__, session_attr, session_close.
  st_unfold. cbn. by rewrite lookup_insert_eq.
Qed.

Lemma with_connection_masks_error_witness :
  (with_connection fixture_uri "neo4j" "secret"
     (fun c => run_query c "MATCH (a:Person) RETURN a" None;; network_down;;
               (st_raise (AppError "oops") : M unit)) fixture_world).1 =
    Err ServiceUnavailable.
Proof.
  apply (with_connection_masks_error _ _ _ _ _ _ _ fixture_store
           [[("a", RNode 0 (Node ["Person"] {["name" := VStr "Bob"]}))]]);
    [reflexivity|reflexivity|reflexivity|reflexivity|vm_compute; reflexivity].
Defined.

(** With the session and its driver open, a call that reaches the server
    raises whatever the first contact raises, and changes nothing. *)
Lemma do_call_unconnected self s d p dv c w e :
  _session self = Some s -> w_sessions w !! s = Some (SessionObj d true p) ->
  w_drivers w !! d = Some dv -> drv_open dv = true -> connect dv w = (Err e, w) ->
  contacts_server c = true -> do_call self c w = (Err e, w).
Proof.
  intros Hs Hso Hd Hdo Hcn Hc.
  destruct c; simpl in Hc; try done; cbn [do_call];
    unfold create_node, create_relationship, delete_node, run_query, show_databases, session_attr,
      session_run, session_begin_transaction, open_session, open_driver;
    rewrite Hs; st_unfold; rewrite Hso; cbn; rewrite Hd, Hdo; cbn; by rewrite Hcn.
Qed.

(** C14: the driver is lazy (spec §4.1 expects [open] to fail): against an
    unreachable server, or one that rejects the credentials, [__init__]
    and [__enter__] succeed, and the block raises [ServiceUnavailable] or
    [AuthError] at its first call that reaches the server, whatever the
    calls after it; the store is unchanged, and the session and then the
    driver are still released. *)
Theorem with_connection_unconnected uri user password c cs w :
  supported_scheme uri = true ->
  srv_up (w_server w) = false \/ (user, password) <> srv_auth (w_server w) ->
  contacts_server c = true ->
  let r := with_connection uri user password (fun conn => do_calls conn (c :: cs)) w in
  r.1 = Err (if srv_up (w_server w) then AuthError else ServiceUnavailable) /\
  store r.2 = store w /\
  w_log r.2 = w_log w ++ [EvDriver (w_next w); EvSession (S (w_next w)) (w_next w);
                          EvSessionClose (S (w_next w)); EvDriverClose (w_next w)].
Proof.
  intros Huri Hfail Hc r. unfold r. rewrite with_connection_enter by done.
  unfold st_finally. cbn [do_calls]. rewrite stM_bind_run.
  rewrite (do_call_unconnected _ (S (w_next w)) (w_next w) false (DriverObj uri (user, password) true)
             _ _ (if srv_up (w_server w) then AuthError else ServiceUnavailable));
    [|done|by cbn; rewrite lookup_insert_eq|by cbn; rewrite lookup_insert_eq|done| |done].
  2:{ unfold connect. cbn. destruct (srv_up _); [rewrite decide_False|]; naive_solver. }
  cbv [entered_conn]. destruct (exit_live _ _ _ _ (enter_live uri user password w)) as (dv & _ & _ & ->).
  split_and!; [done|done|]. simpl. by rewrite <- !app_assoc.
Qed.

Lemma with_connection_unconnected_witness :
  let r := with_connection fixture_uri "neo4j" "wrong" (fun conn => do_calls conn fixture_calls)
             fixture_world in
  r.1 = Err (if srv_up (w_server fixture_world) then AuthError else ServiceUnavailable) /\
  store r.2 = store fixture_world /\
  w_log r.2 = w_log fixture_world ++ [EvDriver 0; EvSession 1 0; EvSessionClose 1; EvDriverClose 0].
Proof.
  apply (with_connection_unconnected _ _ _ (CallCreateNode "Person" [("name", VStr "Ann")]));
    [reflexivity|right; by_decide|reflexivity].
Defined.

(** ** The body refines its contract *)

(** One call on a ready connection does what [spec_call] says to the
    store, and leaves the connection ready when it returns. *)
Lemma do_call_step self s c w :
  ready self s w -> call_ok c ->
  match spec_call c (store w) with
  | Ok g' => exists w', do_call self c w = (Ok tt, w') /\ ready self s w' /\ store w' = g'
  | Err e => exists w', do_call self c w = (Err e, w') /\ store w' = store w
  end.
Proof.
  intros Hr Hc. destruct c; simpl in Hc |- *; rewrite ?stM_bind_run.
  - destruct (packable _) eqn:Hp; [|rewrite (run_query_overflow _ _ _ _ _ Hr Hp); by eexists].
    rewrite (run_query_ready _ _ _ _ _ Hr Hp).
    destruct (run_cypher _ _ _) as [[g' recs]|e]; simpl; eexists; split_and!; eauto with neo.
  - destruct (show_databases_step self s w Hr) as (w' & -> & Hg & _ & _ & Hr').
    eexists; split_and!; eauto.
  - destruct (dict_packable _) eqn:Hp; [|rewrite (create_node_overflow _ s) by done; by eexists].
    rewrite (create_node_ready self s) by done.
    destruct (new_clash _ _) as [[L' k]|]; [by eexists|eexists; split_and!; eauto with neo].
  - destruct Hc as (? & ? & ?).
    destruct (_ && _) eqn:Hp; [|rewrite (create_relationship_overflow _ s) by done; by eexists].
    rewrite (create_relationship_ready self s) by done.
    eexists; split_and!; eauto with neo.
  - destruct Hc as (? & ? & ? & ?).
    destruct (dict_packable _) eqn:Hp; [|rewrite (delete_node_overflow _ s) by done; by eexists].
    rewrite (delete_node_ready self s) by done.
    eexists; split_and!; eauto with neo.
  - by eexists.
  - done.
Qed.

Lemma do_calls_refines self s cs w :
  ready self s w -> Forall call_ok cs ->
  (do_calls self cs w).1 = (spec_calls cs (store w)).1 /\
  store (do_calls self cs w).2 = (spec_calls cs (store w)).2.
Proof.
  revert w. induction cs as [|c cs IH]; intros w Hr Hcs; [done|].
  apply Forall_cons in Hcs as [Hc Hcs]. simpl. rewrite stM_bind_run.
  pose proof (do_call_step self s c w Hr Hc) as Hstep.
  destruct (spec_call c (store w)) as [g'|e]; destruct Hstep as (w' & -> & Hstep).
  - destruct Hstep as [Hr' <-]. by apply IH.
  - done.
Qed.

(** The body runs as [spec_calls] says, and [__exit__] then changes
    neither the outcome nor the store. *)
Lemma with_connection_calls uri user password cs w :
  supported_scheme uri = true -> srv_up (w_server w) = true ->
  (user, password) = srv_auth (w_server w) -> Forall call_ok cs ->
  let r := with_connection uri user password (fun c => do_calls c cs) w in
  r.1 = (spec_calls cs (store w)).1 /\ store r.2 = (spec_calls cs (store w)).2.
Proof.
  intros Huri Hup Hauth Hcs r. unfold r. rewrite with_connection_enter by done.
  assert (Hnd : CallNetworkDown ∉ cs).
  { intros Hin. rewrite Forall_forall in Hcs. exact (Hcs _ Hin). }
  pose proof (keeps_do_calls _ _ _ (entered_conn w) cs Hnd _ (enter_live uri user password w)) as Hl.
  destruct (do_calls_refines _ _ cs _ (enter_ready uri user password w Hup Hauth) Hcs) as [H1 H2].
  rewrite entered_store in H1, H2. unfold st_finally, entered_conn in *.
  destruct (do_calls _ cs _) as [r2 w2]. simpl in Hl, H1, H2.
  destruct (exit_live _ _ _ _ Hl) as (dv & _ & _ & ->). by destruct r2; subst.
Qed.

(** C2: refinement of the contract (spec §4.1): against a reachable
    server that accepts the credentials, a [with] block whose body is a
    sequence of helper calls with identifier names (and non-empty
    [delete_node] dicts) raises exactly what [spec_calls] raises, and
    leaves the store exactly as [spec_calls] computes it: each helper acts
    on the store as its contract says, in the body's order, and the body
    stops at the first exception. *)
Theorem with_connection_refines uri user password cs w :
  supported_scheme uri = true -> srv_up (w_server w) = true ->
  (user, password) = srv_auth (w_server w) -> Forall call_ok cs ->
  let r := with_connection uri user password (fun c => do_calls c cs) w in
  r.1 = (spec_calls cs (store w)).1 /\ store r.2 = (spec_calls cs (store w)).2.
Proof. apply with_connection_calls. Qed.

Lemma with_connection_refines_witness :
  let r := with_connection fixture_uri "neo4j" "secret" (fun c => do_calls c fixture_calls) fixture_world in
  r.1 = (spec_calls fixture_calls (store fixture_world)).1 /\
  store r.2 = (spec_calls fixture_calls (store fixture_world)).2.
Proof. apply with_connection_refines; [reflexivity|reflexivity|reflexivity|by_decide]. Defined.



Lemma discard_lookup_not_live o (m : gmap nat result_obj) r ro :
  (discard o <$> m) !! r = Some ro -> res_owner ro = o -> res_state_of ro <> RLive.
Proof.
  rewrite lookup_fmap. destruct (m !! r) as [ro0|]; intros H; simplify_eq/=.
  unfold discard. case_decide as Hd; simpl; [done|]. intros Ho Hl. by apply Hd.
Qed.

Lemma iterate_not_live w r ro :
  w_results w !! r = Some ro -> res_state_of ro <> RLive ->
  iterate_result r w = (Err ResultConsumedError, w) \/ iterate_result r w = (Ok [], w).
Proof. intros H Hn. unfold iterate_result. rewrite H. by destruct (res_state_of ro); auto. Qed.

(** C23: results do not outlive their session (spec §3): after the [with]
    block, whatever the body did, every result the connection's session
    produced is discarded or was read to the end: reading it raises
    [ResultConsumedError] or yields nothing. *)
Theorem with_connection_results_dead uri user password cs w :
  supported_scheme uri = true -> CallNetworkDown ∉ cs ->
  let s := S (w_next w) in
  let w' := (with_connection uri user password (fun conn => do_calls conn cs) w).2 in
  forall r, (exists ro, w_results w' !! r = Some ro /\ res_owner ro = OSession s) ->
  iterate_result r w' = (Err ResultConsumedError, w') \/ iterate_result r w' = (Ok [], w').
Proof.
  intros Huri Hnd s w'. unfold w'. rewrite with_connection_enter by done.
  pose proof (keeps_do_calls _ _ _ (entered_conn w) cs Hnd _ (enter_live uri user password w)) as Hl.
  unfold st_finally, entered_conn in *. destruct (do_calls _ cs _) as [r2 w2]. simpl in Hl.
  destruct (exit_live _ _ _ _ Hl) as (dv & _ & _ & ->).
  intros r (ro & Hro & Ho). apply (iterate_not_live _ _ ro Hro).
  destruct r2; simpl in Hro; by eapply discard_lookup_not_live.
Qed.

Lemma with_connection_results_dead_witness :
  let w' := (with_connection fixture_uri "neo4j" "secret"
               (fun conn => do_calls conn [CallCreateNode "Person" [("name", VStr "Ann")]])
               fixture_world).2 in
  iterate_result 2 w' = (Err ResultConsumedError, w') \/ iterate_result 2 w' = (Ok [], w').
Proof.
  apply with_connection_results_dead; [reflexivity|by_decide|].
  eexists. split; reflexivity.
Defined.


(** C24: a result does not survive the block that produced it (spec §3;
    the helpers return the lazy result, spec §4.1): when [run_query]
    succeeds inside the [with] block and its result is read after the
    block, the query's write is committed, but the records it found are
    lost, even when there are some, and the read raises
    [ResultConsumedError]. *)
Theorem late_read_consumed uri user password q ps w g' recs :
  supported_scheme uri = true -> srv_up (w_server w) = true ->
  (user, password) = srv_auth (w_server w) -> packable (default [] ps) = true ->
  run_cypher q (default [] ps) (store w) = Ok (g', recs) ->
  let r := (res ← with_connection uri user password (fun conn => run_query conn q ps);
            iterate_result res) w in
  r.1 = Err ResultConsumedError /\ store r.2 = g'.
Proof.
  intros Huri Hup Hauth Hp Hq r. unfold r. rewrite stM_bind_run, with_connection_enter by done.
  pose proof (keeps_run_query _ _ _ (entered_conn w) q ps _ (enter_live uri user password w)) as Hl.
  pose proof (enter_ready uri user password w Hup Hauth) as Hr.
  unfold st_finally. rewrite (run_query_ready _ _ _ _ _ Hr Hp) in Hl |- *.
  rewrite entered_store, Hq in Hl |- *. simpl in Hl.
  destruct (exit_live _ _ _ _ Hl) as (dv & _ & _ & Hexit). cbv [entered_conn] in Hexit |- *.
  rewrite Hexit. unfold iterate_result. simpl. rewrite lookup_fmap, lookup_insert_eq. simpl.
  unfold discard. by rewrite decide_True.
Qed.

Lemma late_read_consumed_witness :
  let r := (res ← with_connection fixture_uri "neo4j" "secret"
                    (fun conn => run_query conn "MATCH (n:Person) RETURN n.name" None);
            iterate_result res) fixture_world in
  r.1 = Err ResultConsumedError /\ store r.2 = store fixture_world.
Proof.
  apply (late_read_consumed _ _ _ _ _ _ _ [[("n.name", RScalar (VStr "Bob"))]]);
    reflexivity.
Defined.

End Connection.
