(* ===== verification/Usage.v ===== *)
(** * The usage script of [neo4j_dev.py]

    Lines 3-6 and 53-63: the connection parameters and the [with] block
    that creates Alice and Bob, links them, and deletes Alice.  The body
    is the list of helper calls [main_calls], so the refinement of
    Connection.v applies to the script: against any reachable server that
    accepts the credentials and has no uniqueness constraint, the script
    returns normally, no [Person] named Alice is left (the new one and
    every older one are gone, with their edges), the new Bob is stored
    under the id after Alice's, and every other node survives. *)

From S2P Require Import Prelude Cypher Graph Exec Queries Driver Connection.

Module Usage.
Import Graph Exec Queries Driver Connection.

(** Lines 4-6. *)
Definition uri : string := "bolt://172.29.0.104:7687".
Definition user : string := "neo4j".
Definition password : string := "12345678".

(** Lines 55-62: the body of the [with] block. *)
Definition main_body (conn : Neo4jConnection) : M unit :=
  create_node conn "Person" [("name", VStr "Alice"); ("age", VInt 30)];;
  create_node conn "Person" [("name", VStr "Bob"); ("age", VInt 25)];;
  create_relationship conn (VStr "Alice") "FRIENDS_WITH" (VStr "Bob") "Person" "Person";;
  delete_node conn "Person" [("name", VStr "Alice")];;
  mret tt.

(** Lines 54-63. *)
Definition main : M unit := with_connection uri user password main_body.

(** The same body as a list of helper calls. *)
Definition main_calls : list call :=
  [CallCreateNode "Person" [("name", VStr "Alice"); ("age", VInt 30)];
   CallCreateNode "Person" [("name", VStr "Bob"); ("age", VInt 25)];
   CallCreateRelationship (VStr "Alice") "FRIENDS_WITH" (VStr "Bob") "Person" "Person";
   CallDeleteNode "Person" [("name", VStr "Alice")]].

(** A server that already holds an Alice and a Carol linked by an edge. *)
Definition server_store : graph :=
  {| g_nodes := {[0 := Node ["Person"] {["name" := VStr "Alice"]};
                  1 := Node ["Person"] {["name" := VStr "Carol"]}]};
     g_rels := {[2 := Rel 1 "FRIENDS_WITH" 0]};
     g_next := 3; g_dbs := ["neo4j"; "system"]; g_unique := [] |}.

Definition demo_world : world := boot_world server_store true (user, password).

Lemma main_body_calls conn w : main_body conn w = do_calls conn main_calls w.
Proof.
  unfold main_body, main_calls. cbn [do_calls do_call]. st_unfold.
  repeat case_match; by simplify_eq/=.
Qed.

Lemma main_as_calls w : main w = with_connection uri user password (fun c => do_calls c main_calls) w.
Proof.
  unfold main. rewrite !with_connection_enter by reflexivity.
  unfold st_finally. by rewrite main_body_calls.
Qed.

Lemma new_clash_no_schema g n : g_unique g = [] -> new_clash g n = None.
Proof. unfold new_clash. by intros ->. Qed.

(** What the contract says the script does to a store without
    constraints. *)
Lemma main_spec g :
  g_unique g = [] ->
  let g2 := (add_node ["Person"] (props_of_dict [("name", VStr "Bob"); ("age", VInt 25)])
               (add_node ["Person"] (props_of_dict [("name", VStr "Alice"); ("age", VInt 30)]) g).2).2 in
  spec_calls main_calls g =
    (Ok tt, delete_matching "Person" [("name", VStr "Alice")]
              (link_pairs "FRIENDS_WITH"
                 (list_prod (matching_ids g2 ["Person"] [("name", VStr "Alice")])
                            (matching_ids g2 ["Person"] [("name", VStr "Bob")])) g2)).
Proof.
  intros Hu g2. unfold main_calls.
  cbn -[new_clash add_node delete_matching link_pairs matching_ids props_of_dict].
  repeat match goal with
         | |- context [if ?b then _ else _] =>
             let v := eval vm_compute in b in progress change b with v
         end.
  rewrite (new_clash_no_schema g) by done. cbv beta iota.
  rewrite (new_clash_no_schema (add_node _ _ g).2) by done. reflexivity.
Qed.

(** C9: the script against any reachable server that accepts its
    credentials and declares no uniqueness constraint: it returns
    normally; no [Person] named Alice is left in the store, neither the
    one it created nor any older one (spec §8, second scenario: Alice is
    gone with her edges); Bob is stored with his two properties under the
    id after Alice's; every node that is not a [Person] named Alice
    survives unchanged. *)
Theorem main_outcome w :
  srv_up (w_server w) = true -> (user, password) = srv_auth (w_server w) ->
  g_unique (store w) = [] -> graph_wf (store w) ->
  let r := main w in
  r.1 = Ok tt /\
  map_Forall (fun _ n => matches_dict "Person" [("name", VStr "Alice")] n = false)
    (g_nodes (store r.2)) /\
  g_nodes (store r.2) !! S (g_next (store w)) =
    Some (Node ["Person"] (props_of_dict [("name", VStr "Bob"); ("age", VInt 25)])) /\
  (forall i n, g_nodes (store w) !! i = Some n ->
     matches_dict "Person" [("name", VStr "Alice")] n = false -> g_nodes (store r.2) !! i = Some n).
Proof.
  intros Hup Hauth Hu Hwf r. unfold r. rewrite main_as_calls.
  destruct (with_connection_calls uri user password main_calls w) as [H1 H2];
    [reflexivity|done|done|by_decide|].
  rewrite main_spec in H1, H2 by done. rewrite H1, H2. split_and!; [done| | |].
  - intros i n Hi%delete_matching_nodes. by destruct Hi.
  - apply delete_matching_nodes. rewrite link_pairs_nodes. simpl. by rewrite lookup_insert_eq.
  - intros i n Hi Hm. apply delete_matching_nodes. split; [|done].
    pose proof (wf_nodes_fresh _ Hwf _ _ Hi). rewrite link_pairs_nodes. simpl.
    by rewrite !lookup_insert_ne by lia.
Qed.

Lemma main_outcome_witness :
  let r := main demo_world in
  r.1 = Ok tt /\
  map_Forall (fun _ n => matches_dict "Person" [("name", VStr "Alice")] n = false)
    (g_nodes (store r.2)) /\
  g_nodes (store r.2) !! S (g_next (store demo_world)) =
    Some (Node ["Person"] (props_of_dict [("name", VStr "Bob"); ("age", VInt 25)])) /\
  (forall i n, g_nodes (store demo_world) !! i = Some n ->
     matches_dict "Person" [("name", VStr "Alice")] n = false -> g_nodes (store r.2) !! i = Some n).
Proof. apply main_outcome; [reflexivity|reflexivity|reflexivity|by_decide]. Defined.

End Usage.
